(** * wiredb: records, typed payloads, object pools and configuration

    A shallow embedding of the parts of the wiredb key/value store that
    the specification talks about:

    - [conf]  : [conf/server_options.go], the configuration validators;
    - [types] : the typed payloads ([Set], [ZSet], [Text], [Table],
                [Number], [Collection]) with their [sync.Pool]s;
    - [vfs]   : the record type [Segment], its constructors, the typed
                conversions, [TTL] and the segment pool;
    - [codec] : the on-disk framing of a record (header, key, value,
                CRC32) and its parser;
    - [engine]: the [Delete] operation over log and index;
    - [sample]: instances on which the definitions are run.

    Conventions.  A Go [uintN] is a [Z] in [0, 2^N); an [intN] is a [Z]
    in [-2^(N-1), 2^(N-1)); every conversion and every arithmetic
    operation writes its wrap-around out ([uint64], [int64], ...).  A Go
    [string] is a [string] (a sequence of 8-bit characters), a [[]byte]
    is a [list byte].  A Go [error] is an [option string], [None] being
    [nil].  A function returning [(T, error)] returns a [result T]. *)

From Stdlib Require Import ZArith List Bool Lia.
From Stdlib.Strings Require Import String Ascii Byte.
From Stdlib.Floats Require Import PrimFloat.
From stdpp Require Import gmap strings pretty.

Import ListNotations.
Local Open Scope string_scope.
Local Open Scope list_scope.
Local Open Scope Z_scope.

(** ** Go values *)

Definition error := option string.

Inductive result (A : Type) : Type :=
| Ok (a : A)
| Err (msg : string).
Arguments Ok {A} a.
Arguments Err {A} msg.

Definition is_Ok {A} (r : result A) : bool :=
  match r with Ok _ => true | Err _ => false end.

Definition bytes := list byte.

(** Integer conversions of Go: truncation to the low [N] bits, read
    unsigned or in two's complement. *)
Definition uint8 (z : Z) : Z := z mod 2^8.
Definition uint32 (z : Z) : Z := z mod 2^32.
Definition uint64 (z : Z) : Z := z mod 2^64.
Definition int8 (z : Z) : Z := (z + 2^7) mod 2^8 - 2^7.
Definition int64 (z : Z) : Z := (z + 2^63) mod 2^64 - 2^63.

(** [len(s)] of a Go string and [[]byte(s)]. *)
Definition len_string (s : string) : Z := Z.of_nat (String.length s).
Definition len_bytes (b : bytes) : Z := Z.of_nat (List.length b).
Definition bytes_of_string (s : string) : bytes := list_byte_of_string s.

(** ** Package [conf] *)

Module conf.

Record Region := {
  Region_Enable : bool;
  Schedule : string;
  Threshold : Z
}.

Record Encryptor := {
  Encryptor_Enable : bool;
  Secret : string
}.

Record Compressor := { Compressor_Enable : bool }.

Record Checkpoint := {
  Checkpoint_Enable : bool;
  Interval : Z
}.

Record ServerOptions := {
  Port : Z;
  Path : string;
  Debug : bool;
  LogPath : string;
  Password : string;
  region : Region;
  encryptor : Encryptor;
  compressor : Compressor;
  checkpoint : Checkpoint;
  AllowIP : list string
}.

(** The valid AES key lengths in bytes, a [map[int]bool]. *)
Definition valid : gmap Z bool :=
  <[16 := true]> (<[24 := true]> (<[32 := true]> ∅)).

(** Indexing a Go map yields the zero value for an absent key. *)
Definition valid_at (n : Z) : bool := default false (valid !! n).

Definition validateEncryptor (e : Encryptor) : error :=
  if negb (Encryptor_Enable e) then None
  else if valid_at (len_string (Secret e)) then None
  else Some "invalid secret key length it must be 16, 24, or 32 bytes".

Definition validatePort (port : Z) : error :=
  if (port <=? 1024) || (port >=? 65535)
  then Some "port range must be between 1025 and 65534"
  else None.

Definition validatePath (path : string) : error :=
  if String.eqb path "" then Some "data directory path cannot be empty"
  else None.

Definition validatePassword (password : string) : error :=
  if String.eqb password "" then Some "auth password cannot be empty"
  else None.

(** The [Validator] interface and its four implementations. *)
Inductive Validator :=
| PortValidator
| PathValidator
| AuthValidator
| EncryptorValidator.

Definition Validate (v : Validator) (opt : ServerOptions) : error :=
  match v with
  | PortValidator => validatePort (Port opt)
  | PathValidator => validatePath (Path opt)
  | AuthValidator => validatePassword (Password opt)
  | EncryptorValidator => validateEncryptor (encryptor opt)
  end.

(** The loop of [Vaildated]: the first error ends it. *)
Fixpoint run_validators (vs : list Validator) (opt : ServerOptions) : error :=
  match vs with
  | [] => None
  | v :: rest =>
      match Validate v opt with
      | Some e => Some e
      | None => run_validators rest opt
      end
  end.

Definition Vaildated (opt : ServerOptions) : error :=
  run_validators
    [PortValidator; PathValidator; AuthValidator; EncryptorValidator] opt.

(** [Default], as [init] decodes it from [DefaultConfigJSON]. *)
Definition Default : ServerOptions :=
  {| Port := 2668;
     Path := "/tmp/urnadb";
     Debug := false;
     LogPath := "/tmp/urnadb/out.log";
     Password := "Are we wide open to the world?";
     region := {| Region_Enable := true; Schedule := "0 0 3 * * *";
                  Threshold := 2 |};
     encryptor := {| Encryptor_Enable := false;
                     Secret := "your-static-data-secret!" |};
     compressor := {| Compressor_Enable := false |};
     checkpoint := {| Checkpoint_Enable := false; Interval := 1800 |};
     AllowIP := [] |}.

Definition with_Port (port : Z) (opt : ServerOptions) : ServerOptions :=
  {| Port := port; Path := Path opt; Debug := Debug opt;
     LogPath := LogPath opt; Password := Password opt;
     region := region opt; encryptor := encryptor opt;
     compressor := compressor opt; checkpoint := checkpoint opt;
     AllowIP := AllowIP opt |}.

(** What the specification calls a valid configuration. *)
Definition valid_config (opt : ServerOptions) : Prop :=
  1025 <= Port opt <= 65534 /\
  Path opt <> "" /\
  Password opt <> "" /\
  (Encryptor_Enable (encryptor opt) = false \/
   len_string (Secret (encryptor opt)) = 16 \/
   len_string (Secret (encryptor opt)) = 24 \/
   len_string (Secret (encryptor opt)) = 32).

End conf.

(** ** Outcomes of a call that may panic *)

Inductive outcome (A : Type) : Type :=
| Returned (a : A)
| Panicked (msg : string).
Arguments Returned {A} a.
Arguments Panicked {A} msg.

(** ** [sync.Pool]

    A pool is the collection of the objects put into it.  [Get] hands
    back any one of them, or a new object: which one is the runtime's
    choice, given here by the index [pick] (an index past the end stands
    for "the pool looked empty", and [Get] then calls [New]). *)

Section Pool.
Context {A : Type}.

Definition pool_Put (x : A) (p : list A) : list A := x :: p.

Definition pool_Get (New : A) (pick : nat) (p : list A) : A * list A :=
  match p !! pick with
  | Some x => (x, delete pick p)
  | None => (New, p)
  end.

(** [for i := 0; i < n; i++ { pool.Put(x) }] *)
Fixpoint pool_fill (n : nat) (x : A) (p : list A) : list A :=
  match n with
  | O => p
  | S k => pool_fill k x (pool_Put x p)
  end.
End Pool.

(** ** Package [types] *)

Module types.

(** The values a [[]any] or a [map[string]any] holds once decoded from
    JSON or msgpack. *)
#[warnings="-register-all"]
Inductive any :=
| AnyNil
| AnyBool (b : bool)
| AnyInt (z : Z)
| AnyFloat (f : float)
| AnyString (s : string)
| AnySlice (l : list any)
| AnyMap (m : list (string * any)).

Record Set_ := {
  Set_Set : gmap string bool;
  Set_TTL : Z
}.

Record ZSet := {
  ZSet_ZSet : gmap string float;
  ZSet_TTL : Z;
  sortedScores : list string
}.

Record Text := {
  Content : string;
  Text_TTL : Z
}.

Record Table := {
  Table_Table : gmap string any;
  Table_TTL : Z
}.

Record Number := {
  Value : Z;
  Number_TTL : Z
}.

Record Collection := {
  Collection_Collection : list any;
  Collection_TTL : Z
}.

(** Constructors.  A nil map or slice and an empty one are not told
    apart. *)
Definition NewSet : Set_ := {| Set_Set := ∅; Set_TTL := 0 |}.
Definition NewZSet : ZSet :=
  {| ZSet_ZSet := ∅; ZSet_TTL := 0; sortedScores := [] |}.
Definition NewText (content : string) : Text :=
  {| Content := content; Text_TTL := 0 |}.
Definition NewTable : Table := {| Table_Table := ∅; Table_TTL := 0 |}.
Definition NewNumber (num : Z) : Number :=
  {| Value := num; Number_TTL := 0 |}.
Definition NewCollection : Collection :=
  {| Collection_Collection := []; Collection_TTL := 0 |}.

(** The [Clear] methods, one assignment after the other. *)
Definition Set_Clear (s : Set_) : Set_ :=
  let s := {| Set_Set := Set_Set s; Set_TTL := 0 |} in
  {| Set_Set := ∅; Set_TTL := Set_TTL s |}.

Definition ZSet_Clear (z : ZSet) : ZSet :=
  let z := {| ZSet_ZSet := ZSet_ZSet z; ZSet_TTL := 0;
              sortedScores := sortedScores z |} in
  let z := {| ZSet_ZSet := ∅; ZSet_TTL := ZSet_TTL z;
              sortedScores := sortedScores z |} in
  {| ZSet_ZSet := ZSet_ZSet z; ZSet_TTL := ZSet_TTL z; sortedScores := [] |}.

Definition Text_Clear (t : Text) : Text :=
  let t := {| Content := Content t; Text_TTL := 0 |} in
  {| Content := ""; Text_TTL := Text_TTL t |}.

Definition Table_Clear (t : Table) : Table :=
  let t := {| Table_Table := Table_Table t; Table_TTL := 0 |} in
  {| Table_Table := ∅; Table_TTL := Table_TTL t |}.

Definition Number_Clear (n : Number) : Number :=
  let n := {| Value := Value n; Number_TTL := 0 |} in
  {| Value := 0; Number_TTL := Number_TTL n |}.

Definition Collection_Clear (c : Collection) : Collection :=
  let c := {| Collection_Collection := Collection_Collection c;
              Collection_TTL := 0 |} in
  {| Collection_Collection := []; Collection_TTL := Collection_TTL c |}.

(** What a [sync.Pool] of this package can hold: a pointer to one of the
    six payload structs, with its dynamic type. *)
Inductive object :=
| PtrSet (s : Set_)
| PtrZSet (z : ZSet)
| PtrText (t : Text)
| PtrTable (t : Table)
| PtrNumber (n : Number)
| PtrCollection (c : Collection).

(** The package-level pools. *)
Record Pools := {
  collectionPools : list object;
  numberPools : list object;
  setPools : list object;
  tablePools : list object;
  textPools : list object;
  zsetPools : list object
}.

Definition no_pools : Pools :=
  {| collectionPools := []; numberPools := []; setPools := [];
     tablePools := []; textPools := []; zsetPools := [] |}.

Definition with_collectionPools (p : list object) (ps : Pools) : Pools :=
  {| collectionPools := p; numberPools := numberPools ps;
     setPools := setPools ps; tablePools := tablePools ps;
     textPools := textPools ps; zsetPools := zsetPools ps |}.
Definition with_numberPools (p : list object) (ps : Pools) : Pools :=
  {| collectionPools := collectionPools ps; numberPools := p;
     setPools := setPools ps; tablePools := tablePools ps;
     textPools := textPools ps; zsetPools := zsetPools ps |}.
Definition with_setPools (p : list object) (ps : Pools) : Pools :=
  {| collectionPools := collectionPools ps; numberPools := numberPools ps;
     setPools := p; tablePools := tablePools ps;
     textPools := textPools ps; zsetPools := zsetPools ps |}.
Definition with_tablePools (p : list object) (ps : Pools) : Pools :=
  {| collectionPools := collectionPools ps; numberPools := numberPools ps;
     setPools := setPools ps; tablePools := p;
     textPools := textPools ps; zsetPools := zsetPools ps |}.
Definition with_textPools (p : list object) (ps : Pools) : Pools :=
  {| collectionPools := collectionPools ps; numberPools := numberPools ps;
     setPools := setPools ps; tablePools := tablePools ps;
     textPools := p; zsetPools := zsetPools ps |}.
Definition with_zsetPools (p : list object) (ps : Pools) : Pools :=
  {| collectionPools := collectionPools ps; numberPools := numberPools ps;
     setPools := setPools ps; tablePools := tablePools ps;
     textPools := textPools ps; zsetPools := p |}.

(** The [init] functions, one per file.  The one next to [Set]
    fills [zsetPools], as the source does. *)
Definition init_collection (ps : Pools) : Pools :=
  with_collectionPools
    (pool_fill 10 (PtrCollection NewCollection) (collectionPools ps)) ps.
Definition init_number (ps : Pools) : Pools :=
  with_numberPools (pool_fill 10 (PtrNumber (NewNumber 0)) (numberPools ps)) ps.
Definition init_set (ps : Pools) : Pools :=
  with_zsetPools (pool_fill 10 (PtrSet NewSet) (zsetPools ps)) ps.
Definition init_table (ps : Pools) : Pools :=
  with_tablePools (pool_fill 10 (PtrTable NewTable) (tablePools ps)) ps.
Definition init_text (ps : Pools) : Pools :=
  with_textPools (pool_fill 10 (PtrText (NewText "")) (textPools ps)) ps.
Definition init_zset (ps : Pools) : Pools :=
  with_zsetPools (pool_fill 10 (PtrZSet NewZSet) (zsetPools ps)) ps.

(** Package initialisation: the [init] functions in the order of the
    files. *)
Definition init : Pools :=
  init_zset (init_text (init_table (init_set (init_number
    (init_collection no_pools))))).

(** The [Acquire] functions: [Get], then a type assertion to the
    pointer type, which panics on any other dynamic type. *)
Definition AcquireCollection (pick : nat) (ps : Pools)
  : outcome Collection * Pools :=
  let '(o, p) := pool_Get (PtrCollection NewCollection) pick (collectionPools ps) in
  (match o with
   | PtrCollection c => Returned c
   | _ => Panicked "interface conversion: interface {} is not *types.Collection"
   end, with_collectionPools p ps).

Definition AcquireNumber (pick : nat) (ps : Pools) : outcome Number * Pools :=
  let '(o, p) := pool_Get (PtrNumber (NewNumber 0)) pick (numberPools ps) in
  (match o with
   | PtrNumber n => Returned n
   | _ => Panicked "interface conversion: interface {} is not *types.Number"
   end, with_numberPools p ps).

Definition AcquireSet (pick : nat) (ps : Pools) : outcome Set_ * Pools :=
  let '(o, p) := pool_Get (PtrSet NewSet) pick (setPools ps) in
  (match o with
   | PtrSet s => Returned s
   | _ => Panicked "interface conversion: interface {} is not *types.Set"
   end, with_setPools p ps).

Definition AcquireTable (pick : nat) (ps : Pools) : outcome Table * Pools :=
  let '(o, p) := pool_Get (PtrTable NewTable) pick (tablePools ps) in
  (match o with
   | PtrTable t => Returned t
   | _ => Panicked "interface conversion: interface {} is not *types.Table"
   end, with_tablePools p ps).

Definition AcquireText (pick : nat) (ps : Pools) : outcome Text * Pools :=
  let '(o, p) := pool_Get (PtrText (NewText "")) pick (textPools ps) in
  (match o with
   | PtrText t => Returned t
   | _ => Panicked "interface conversion: interface {} is not *types.Text"
   end, with_textPools p ps).

Definition AcquireZSet (pick : nat) (ps : Pools) : outcome ZSet * Pools :=
  let '(o, p) := pool_Get (PtrZSet NewZSet) pick (zsetPools ps) in
  (match o with
   | PtrZSet z => Returned z
   | _ => Panicked "interface conversion: interface {} is not *types.ZSet"
   end, with_zsetPools p ps).

(** The [ReleaseToPool] methods: [Clear], then [Put]. *)
Definition Collection_ReleaseToPool (c : Collection) (ps : Pools) : Pools :=
  with_collectionPools
    (pool_Put (PtrCollection (Collection_Clear c)) (collectionPools ps)) ps.
Definition Number_ReleaseToPool (n : Number) (ps : Pools) : Pools :=
  with_numberPools (pool_Put (PtrNumber (Number_Clear n)) (numberPools ps)) ps.
Definition Set_ReleaseToPool (s : Set_) (ps : Pools) : Pools :=
  with_setPools (pool_Put (PtrSet (Set_Clear s)) (setPools ps)) ps.
Definition Table_ReleaseToPool (t : Table) (ps : Pools) : Pools :=
  with_tablePools (pool_Put (PtrTable (Table_Clear t)) (tablePools ps)) ps.
Definition Text_ReleaseToPool (t : Text) (ps : Pools) : Pools :=
  with_textPools (pool_Put (PtrText (Text_Clear t)) (textPools ps)) ps.
Definition ZSet_ReleaseToPool (z : ZSet) (ps : Pools) : Pools :=
  with_zsetPools (pool_Put (PtrZSet (ZSet_Clear z)) (zsetPools ps)) ps.

(** The calls that touch the pools after initialisation.  A released
    object is any object the caller holds; the caller does not use it
    again. *)
Inductive call :=
| CallAcquireCollection (pick : nat)
| CallAcquireNumber (pick : nat)
| CallAcquireSet (pick : nat)
| CallAcquireTable (pick : nat)
| CallAcquireText (pick : nat)
| CallAcquireZSet (pick : nat)
| CallReleaseCollection (c : Collection)
| CallReleaseNumber (n : Number)
| CallReleaseSet (s : Set_)
| CallReleaseTable (t : Table)
| CallReleaseText (t : Text)
| CallReleaseZSet (z : ZSet).

Definition run_call (c : call) (ps : Pools) : Pools :=
  match c with
  | CallAcquireCollection pick => snd (AcquireCollection pick ps)
  | CallAcquireNumber pick => snd (AcquireNumber pick ps)
  | CallAcquireSet pick => snd (AcquireSet pick ps)
  | CallAcquireTable pick => snd (AcquireTable pick ps)
  | CallAcquireText pick => snd (AcquireText pick ps)
  | CallAcquireZSet pick => snd (AcquireZSet pick ps)
  | CallReleaseCollection c => Collection_ReleaseToPool c ps
  | CallReleaseNumber n => Number_ReleaseToPool n ps
  | CallReleaseSet s => Set_ReleaseToPool s ps
  | CallReleaseTable t => Table_ReleaseToPool t ps
  | CallReleaseText t => Text_ReleaseToPool t ps
  | CallReleaseZSet z => ZSet_ReleaseToPool z ps
  end.

(** The pools after initialisation and a sequence of calls. *)
Definition run_calls (cs : list call) : Pools :=
  fold_left (fun ps c => run_call c ps) cs init.

(** [msgpack.Marshal] and [msgpack.Unmarshal] of
    github.com/vmihailenco/msgpack, at the six content types. *)
Class Msgpack := {
  Marshal_set : gmap string bool -> result bytes;
  Unmarshal_set : bytes -> result (gmap string bool);
  Marshal_zset : gmap string float -> result bytes;
  Unmarshal_zset : bytes -> result (gmap string float);
  Marshal_text : string -> result bytes;
  Unmarshal_text : bytes -> result string;
  Marshal_table : gmap string any -> result bytes;
  Unmarshal_table : bytes -> result (gmap string any);
  Marshal_number : Z -> result bytes;
  Unmarshal_number : bytes -> result Z;
  Marshal_collection : list any -> result bytes;
  Unmarshal_collection : bytes -> result (list any)
}.

(** The [ToBytes] methods, by dynamic type. *)
Definition ToBytes `{Msgpack} (o : object) : result bytes :=
  match o with
  | PtrSet s => Marshal_set (Set_Set s)
  | PtrZSet z => Marshal_zset (ZSet_ZSet z)
  | PtrText t => Marshal_text (Content t)
  | PtrTable t => Marshal_table (Table_Table t)
  | PtrNumber n => Marshal_number (Value n)
  | PtrCollection c => Marshal_collection (Collection_Collection c)
  end.


(** *** [Number]: the atomic operations

    [sync/atomic] on the [int64] field; the arithmetic wraps. *)
Definition atomic_AddInt64 (delta : Z) (num : Number) : Z * Number :=
  let v := int64 (Value num + delta) in
  (v, {| Value := v; Number_TTL := Number_TTL num |}).

Definition Number_Add (delta : Z) (num : Number) : Z * Number :=
  atomic_AddInt64 delta num.

Definition Number_Sub (delta : Z) (num : Number) : Z * Number :=
  atomic_AddInt64 (int64 (- delta)) num.

Definition Number_Increment (num : Number) : Z * Number := Number_Add 1 num.
Definition Number_Decrement (num : Number) : Z * Number := Number_Sub 1 num.

Definition Number_Set (newValue : Z) (num : Number) : Number :=
  {| Value := newValue; Number_TTL := Number_TTL num |}.

Definition Number_Get (num : Number) : Z := Value num.

Definition Number_CompareAndSwap (old new : Z) (num : Number) : bool * Number :=
  if Value num =? old
  then (true, {| Value := new; Number_TTL := Number_TTL num |})
  else (false, num).

(** *** [Text] *)
Definition Text_Size (t : Text) : Z := len_string (Content t).

Definition Text_Append (content : string) (t : Text) : Text :=
  {| Content := String.append (Content t) content; Text_TTL := Text_TTL t |}.

Definition Text_Equals (t other : Text) : bool :=
  String.eqb (Content t) (Content other).

Definition Text_Clone (t : Text) : Text :=
  {| Content := Content t; Text_TTL := Text_TTL t |}.

(** *** [Set] *)
Definition Set_Add (value : string) (s : Set_) : Set_ :=
  {| Set_Set := <[value := true]> (Set_Set s); Set_TTL := Set_TTL s |}.

(** [s.Set[value]]: the stored flag, [false] for an absent key. *)
Definition Set_Contains (value : string) (s : Set_) : bool :=
  default false (Set_Set s !! value).

Definition Set_Remove (value : string) (s : Set_) : Set_ :=
  {| Set_Set := delete value (Set_Set s); Set_TTL := Set_TTL s |}.

Definition Set_Size (s : Set_) : Z := Z.of_nat (size (Set_Set s)).

(** *** [Table] *)
Definition Table_AddItem (key : string) (value : any) (t : Table) : Table :=
  {| Table_Table := <[key := value]> (Table_Table t); Table_TTL := Table_TTL t |}.

Definition Table_RemoveItem (key : string) (t : Table) : Table :=
  {| Table_Table := delete key (Table_Table t); Table_TTL := Table_TTL t |}.

Definition Table_ContainsKey (key : string) (t : Table) : bool :=
  match Table_Table t !! key with Some _ => true | None => false end.

Definition Table_GetItem (key : string) (t : Table) : any :=
  if Table_ContainsKey key t
  then default AnyNil (Table_Table t !! key)
  else AnyNil.

Definition Table_Size (t : Table) : Z := Z.of_nat (size (Table_Table t)).

(** *** [Collection] *)
Definition Collection_Size (c : Collection) : Z :=
  Z.of_nat (List.length (Collection_Collection c)).

Definition Collection_AddItem (item : any) (c : Collection) : Collection :=
  {| Collection_Collection := Collection_Collection c ++ [item];
     Collection_TTL := Collection_TTL c |}.

Definition Collection_LPush (item : any) (c : Collection) : Collection :=
  {| Collection_Collection := [item] ++ Collection_Collection c;
     Collection_TTL := Collection_TTL c |}.

Definition Collection_RPush (item : any) (c : Collection) : Collection :=
  {| Collection_Collection := Collection_Collection c ++ [item];
     Collection_TTL := Collection_TTL c |}.

(** [GetItem]: the index is checked, so the indexing that follows
    never goes out of range. *)
Definition Collection_GetItem (index : Z) (c : Collection) : result any :=
  if (index <? 0) || (index >=? Collection_Size c)
  then Err "collection index out of bounds"
  else Ok (default AnyNil (Collection_Collection c !! Z.to_nat index)).

(** The loop of [Rnage], [i] being the index of the head of [l]. *)
Fixpoint Rnage_loop (statIndex endIndex i : Z) (l : list any) : list any :=
  match l with
  | [] => []
  | v :: rest =>
      if (i >=? statIndex) && (i <=? endIndex)
      then v :: Rnage_loop statIndex endIndex (i + 1) rest
      else Rnage_loop statIndex endIndex (i + 1) rest
  end.

Definition Collection_Rnage (statIndex endIndex : Z) (c : Collection)
  : result (list any) :=
  Ok (Rnage_loop statIndex endIndex 0 (Collection_Collection c)).

Section CollectionRemove.
(** [v == item] on two interface values: [true] or [false], or a
    run-time panic when both hold the same uncomparable type. *)
Variable interface_eq : any -> any -> outcome bool.

(** The loop of [Remove]: [before] is [cle.Collection[:i]], [l] the rest. *)
Fixpoint Remove_loop (item : any) (before l : list any)
  : outcome (option (list any)) :=
  match l with
  | [] => Returned None
  | v :: rest =>
      match interface_eq v item with
      | Panicked msg => Panicked msg
      | Returned true => Returned (Some (before ++ rest))
      | Returned false => Remove_loop item (before ++ [v]) rest
      end
  end.

Definition Collection_Remove (item : any) (c : Collection)
  : outcome (error * Collection) :=
  match Remove_loop item [] (Collection_Collection c) with
  | Panicked msg => Panicked msg
  | Returned (Some l) =>
      Returned (None, {| Collection_Collection := l;
                         Collection_TTL := Collection_TTL c |})
  | Returned None => Returned (Some "collection item not found", c)
  end.
End CollectionRemove.

(** *** [ZSet] *)
Section ZSetMethods.
(** [sort.Slice] on a slice of strings; [less] is given on the values,
    the two elements the indices of the source's closure point at. *)
Variable sort_Slice : (string -> string -> bool) -> list string -> list string.

(** [z.ZSet[value]]: the zero score for an absent key. *)
Definition ZSet_score (z : ZSet) (value : string) : float :=
  default PrimFloat.zero (ZSet_ZSet z !! value).

Definition ZSet_sort (z : ZSet) : ZSet :=
  {| ZSet_ZSet := ZSet_ZSet z; ZSet_TTL := ZSet_TTL z;
     sortedScores :=
       sort_Slice (fun a b => PrimFloat.ltb (ZSet_score z b) (ZSet_score z a))
         (sortedScores z) |}.

(** The loop of [Remove] over [sortedScores]: the first occurrence is
    cut out. *)
Fixpoint remove_first (value : string) (l : list string) : list string :=
  match l with
  | [] => []
  | v :: rest =>
      if String.eqb v value then rest else v :: remove_first value rest
  end.

Definition ZSet_Remove (value : string) (z : ZSet) : ZSet :=
  let z :=
    match ZSet_ZSet z !! value with
    | Some _ =>
        {| ZSet_ZSet := delete value (ZSet_ZSet z); ZSet_TTL := ZSet_TTL z;
           sortedScores := remove_first value (sortedScores z) |}
    | None => z
    end in
  ZSet_sort z.

Definition ZSet_Add (value : string) (score : float) (z : ZSet) : ZSet :=
  let z :=
    match ZSet_ZSet z !! value with
    | Some _ => ZSet_Remove value z
    | None => z
    end in
  let z := {| ZSet_ZSet := <[value := score]> (ZSet_ZSet z);
              ZSet_TTL := ZSet_TTL z; sortedScores := sortedScores z |} in
  let z := {| ZSet_ZSet := ZSet_ZSet z; ZSet_TTL := ZSet_TTL z;
              sortedScores := sortedScores z ++ [value] |} in
  ZSet_sort z.

Definition ZSet_Get (value : string) (z : ZSet) : float * bool :=
  match ZSet_ZSet z !! value with
  | Some score => (score, true)
  | None => (PrimFloat.zero, false)
  end.

(** The loop of [GetRank], [i] being the index of the head of [l]. *)
Fixpoint rank_loop (value : string) (i : Z) (l : list string) : Z * bool :=
  match l with
  | [] => (-1, false)
  | v :: rest =>
      if String.eqb v value then (i, true) else rank_loop value (i + 1) rest
  end.

Definition ZSet_GetRank (value : string) (z : ZSet) : Z * bool * ZSet :=
  let z := ZSet_sort z in
  (rank_loop value 0 (sortedScores z), z).

(** The loop of [GetRange]. *)
Fixpoint range_loop (z : ZSet) (minScore maxScore : float) (l : list string)
  : list string :=
  match l with
  | [] => []
  | value :: rest =>
      match ZSet_ZSet z !! value with
      | Some score =>
          if PrimFloat.leb minScore score && PrimFloat.leb score maxScore
          then value :: range_loop z minScore maxScore rest
          else range_loop z minScore maxScore rest
      | None => range_loop z minScore maxScore rest
      end
  end.

Definition ZSet_GetRange (minScore maxScore : float) (z : ZSet)
  : list string * ZSet :=
  let z := ZSet_sort z in
  (range_loop z minScore maxScore (sortedScores z), z).

Definition ZSet_Size (z : ZSet) : Z := Z.of_nat (size (ZSet_ZSet z)).

(** Sequences of [Add] and [Remove] on a [ZSet]. *)
Inductive ZSet_op :=
| ZAdd (value : string) (score : float)
| ZRemove (value : string).

Definition ZSet_apply (z : ZSet) (o : ZSet_op) : ZSet :=
  match o with
  | ZAdd value score => ZSet_Add value score z
  | ZRemove value => ZSet_Remove value z
  end.

Definition ZSet_run (ops : list ZSet_op) : ZSet :=
  fold_left ZSet_apply ops NewZSet.
End ZSetMethods.

(** Sequences of [Add] and [Remove] on a [Set]. *)
Inductive Set_op :=
| SAdd (value : string)
| SRemove (value : string).

Definition Set_apply (s : Set_) (o : Set_op) : Set_ :=
  match o with
  | SAdd value => Set_Add value s
  | SRemove value => Set_Remove value s
  end.

Definition Set_run (ops : list Set_op) : Set_ := fold_left Set_apply ops NewSet.

(** Sequences of [AddItem] and [RemoveItem] on a [Table]. *)
Inductive Table_op :=
| TAdd (key : string) (value : any)
| TRemove (key : string).

Definition Table_apply (t : Table) (o : Table_op) : Table :=
  match o with
  | TAdd key value => Table_AddItem key value t
  | TRemove key => Table_RemoveItem key t
  end.

Definition Table_run (ops : list Table_op) : Table :=
  fold_left Table_apply ops NewTable.

(** [json.Marshal] at the six content types. *)
Class Json := {
  json_set : gmap string bool -> result bytes;
  json_zset : gmap string float -> result bytes;
  json_text : string -> result bytes;
  json_table : gmap string any -> result bytes;
  json_number : Z -> result bytes;
  json_collection : list any -> result bytes
}.

Definition Set_ToJSON `{Json} (s : Set_) := json_set (Set_Set s).
Definition ZSet_ToJSON `{Json} (z : ZSet) := json_zset (ZSet_ZSet z).
Definition Text_ToJSON `{Json} (t : Text) := json_text (Content t).
Definition Table_ToJSON `{Json} (t : Table) := json_table (Table_Table t).
Definition Number_ToJSON `{Json} (n : Number) := json_number (Value n).
Definition Collection_ToJSON `{Json} (c : Collection) :=
  json_collection (Collection_Collection c).

End types.

(** ** Package [time]

    An instant is its exact number of nanoseconds since the Unix epoch.
    [UnixNano] reports it as an [int64]; a [Duration] is an [int64]
    count of nanoseconds. *)

Module time.

Definition Time := Z.
Definition Duration (z : Z) : Z := int64 z.
Definition Second : Z := 1000000000.

(** Multiplication of two [Duration]s, in [int64]. *)
Definition Duration_mul (a b : Z) : Z := int64 (a * b).

Definition Add (t : Time) (d : Z) : Time := t + d.
Definition UnixNano (t : Time) : Z := int64 t.

End time.

(** ** Package [vfs] *)

Module vfs.

Definition Kind := Z.

Definition Set_ : Kind := 0.
Definition ZSet : Kind := 1.
Definition Text : Kind := 2.
Definition Table : Kind := 3.
Definition Number : Kind := 4.
Definition Unknown : Kind := 5.
Definition Collection : Kind := 6.

(** | DEL 1 | KIND 1 | EAT 8 | CAT 8 | KLEN 4 | VLEN 4 | KEY ? | VALUE ? | CRC32 4 | *)
Record Segment := {
  Tombstone : Z;
  Type_ : Kind;
  ExpiredAt : Z;
  CreatedAt : Z;
  KeySize : Z;
  ValueSize : Z;
  Key : bytes;
  Value : bytes
}.

(** Assignments to one field of a segment. *)
Definition set_Tombstone (v : Z) (s : Segment) : Segment :=
  {| Tombstone := v; Type_ := Type_ s; ExpiredAt := ExpiredAt s;
     CreatedAt := CreatedAt s; KeySize := KeySize s;
     ValueSize := ValueSize s; Key := Key s; Value := Value s |}.
Definition set_Type (v : Kind) (s : Segment) : Segment :=
  {| Tombstone := Tombstone s; Type_ := v; ExpiredAt := ExpiredAt s;
     CreatedAt := CreatedAt s; KeySize := KeySize s;
     ValueSize := ValueSize s; Key := Key s; Value := Value s |}.
Definition set_ExpiredAt (v : Z) (s : Segment) : Segment :=
  {| Tombstone := Tombstone s; Type_ := Type_ s; ExpiredAt := v;
     CreatedAt := CreatedAt s; KeySize := KeySize s;
     ValueSize := ValueSize s; Key := Key s; Value := Value s |}.
Definition set_CreatedAt (v : Z) (s : Segment) : Segment :=
  {| Tombstone := Tombstone s; Type_ := Type_ s; ExpiredAt := ExpiredAt s;
     CreatedAt := v; KeySize := KeySize s;
     ValueSize := ValueSize s; Key := Key s; Value := Value s |}.
Definition set_KeySize (v : Z) (s : Segment) : Segment :=
  {| Tombstone := Tombstone s; Type_ := Type_ s; ExpiredAt := ExpiredAt s;
     CreatedAt := CreatedAt s; KeySize := v;
     ValueSize := ValueSize s; Key := Key s; Value := Value s |}.
Definition set_ValueSize (v : Z) (s : Segment) : Segment :=
  {| Tombstone := Tombstone s; Type_ := Type_ s; ExpiredAt := ExpiredAt s;
     CreatedAt := CreatedAt s; KeySize := KeySize s;
     ValueSize := v; Key := Key s; Value := Value s |}.
Definition set_Key (v : bytes) (s : Segment) : Segment :=
  {| Tombstone := Tombstone s; Type_ := Type_ s; ExpiredAt := ExpiredAt s;
     CreatedAt := CreatedAt s; KeySize := KeySize s;
     ValueSize := ValueSize s; Key := v; Value := Value s |}.
Definition set_Value (v : bytes) (s : Segment) : Segment :=
  {| Tombstone := Tombstone s; Type_ := Type_ s; ExpiredAt := ExpiredAt s;
     CreatedAt := CreatedAt s; KeySize := KeySize s;
     ValueSize := ValueSize s; Key := Key s; Value := v |}.

(** [new(Segment)]: every field at its zero value. *)
Definition new_Segment : Segment :=
  {| Tombstone := 0; Type_ := 0; ExpiredAt := 0; CreatedAt := 0;
     KeySize := 0; ValueSize := 0; Key := []; Value := [] |}.

(** The [Serializable] interface.  Its values are the pointers to the
    six payload structs and, the interface being open, values of any
    other type with a [ToBytes] method, given by what that method
    returns. *)
Inductive Serializable :=
| Payload (o : types.object)
| Foreign (tobytes : result bytes).

Definition Serializable_ToBytes `{types.Msgpack} (data : Serializable)
  : result bytes :=
  match data with
  | Payload o => types.ToBytes o
  | Foreign r => r
  end.

(** The type switch of [toKind]. *)
Definition toKind (data : Serializable) : Kind :=
  match data with
  | Payload (types.PtrSet _) => Set_
  | Payload (types.PtrZSet _) => ZSet
  | Payload (types.PtrText _) => Text
  | Payload (types.PtrTable _) => Table
  | Payload (types.PtrNumber _) => Number
  | Payload (types.PtrCollection _) => Collection
  | Foreign _ => Unknown
  end.

(** The state the package reads and writes: the wall clock, of which
    [clock n] is the instant returned by the [n]-th call of [time.Now],
    and the segment pool. *)
Record World := {
  clock : nat -> time.Time;
  ticks : nat;
  segmentPool : list Segment
}.

Definition time_Now (w : World) : time.Time * World :=
  (clock w (ticks w),
   {| clock := clock w; ticks := S (ticks w); segmentPool := segmentPool w |}).

Definition with_segmentPool (p : list Segment) (w : World) : World :=
  {| clock := clock w; ticks := ticks w; segmentPool := p |}.

(** [init]: the pool is filled with a hundred new segments. *)
Definition init (w : World) : World :=
  with_segmentPool (pool_fill 100 new_Segment (segmentPool w)) w.

Definition Clear (s : Segment) : Segment :=
  let s := set_Key [] s in
  let s := set_Value [] s in
  let s := set_KeySize 0 s in
  let s := set_CreatedAt 0 s in
  let s := set_ExpiredAt 0 s in
  let s := set_ValueSize 0 s in
  set_Tombstone 0 s.

Definition ReleaseToPool (seg : Segment) (w : World) : World :=
  let seg := Clear seg in
  with_segmentPool (pool_Put seg (segmentPool w)) w.

(** [timestamp, expiredAt := ...] and the [if ttl > 0] that follows,
    shared by both constructors. *)
Definition stamps (ttl : Z) (w : World) : Z * Z * World :=
  let '(t0, w) := time_Now w in
  let timestamp := uint64 (time.UnixNano t0) in
  let expiredAt := uint64 0 in
  if 0 <? ttl then
    let '(t1, w) := time_Now w in
    let d := time.Duration_mul time.Second (time.Duration ttl) in
    (timestamp, uint64 (time.UnixNano (time.Add t1 d)), w)
  else (timestamp, expiredAt, w).

Section Constructors.
Context `{types.Msgpack}.
(** [transformer.Encode], the configured compress-then-encrypt
    pipeline. *)
Variable transformer_Encode : bytes -> result bytes.

Definition NewSegment (key : string) (data : Serializable) (ttl : Z)
    (w : World) : result Segment * World :=
  let '(timestamp, expiredAt, w) := stamps ttl w in
  match Serializable_ToBytes data with
  | Err e => (Err e, w)
  | Ok bs =>
      match transformer_Encode bs with
      | Err e => (Err (String.append "transformer encode: " e), w)
      | Ok encodedata =>
          (Ok {| Type_ := toKind data;
                 Tombstone := 0;
                 CreatedAt := timestamp;
                 ExpiredAt := expiredAt;
                 KeySize := uint32 (len_string key);
                 ValueSize := uint32 (len_bytes encodedata);
                 Key := bytes_of_string key;
                 Value := encodedata |}, w)
      end
  end.

Definition AcquirePoolSegment (pick : nat) (key : string)
    (data : Serializable) (ttl : Z) (w : World) : result Segment * World :=
  let '(seg, p) := pool_Get new_Segment pick (segmentPool w) in
  let w := with_segmentPool p w in
  let '(timestamp, expiredAt, w) := stamps ttl w in
  match Serializable_ToBytes data with
  | Err e => (Err e, ReleaseToPool seg w)
  | Ok bs =>
      match transformer_Encode bs with
      | Err e => (Err (String.append "transformer encode: " e), ReleaseToPool seg w)
      | Ok encodedata =>
          let seg := set_Type (toKind data) seg in
          let seg := set_Tombstone 0 seg in
          let seg := set_CreatedAt timestamp seg in
          let seg := set_ExpiredAt expiredAt seg in
          let seg := set_KeySize (uint32 (len_string key)) seg in
          let seg := set_ValueSize (uint32 (len_bytes encodedata)) seg in
          let seg := set_Key (bytes_of_string key) seg in
          let seg := set_Value encodedata seg in
          (Ok seg, w)
      end
  end.
End Constructors.

Definition NewTombstoneSegment (key : string) (w : World) : Segment * World :=
  let '(t0, w) := time_Now w in
  let timestamp := uint64 (time.UnixNano t0) in
  let expiredAt := uint64 0 in
  ({| Type_ := Unknown;
      Tombstone := 1;
      CreatedAt := timestamp;
      ExpiredAt := expiredAt;
      KeySize := uint32 (len_string key);
      ValueSize := 0;
      Key := bytes_of_string key;
      Value := [] |}, w).

Definition IsTombstone (s : Segment) : bool := Tombstone s =? 1.

(** [TTL]: the subtraction is in [uint64], the division in [int64] and
    rounds towards zero. *)
Definition TTL (s : Segment) (w : World) : Z * World :=
  let '(t, w) := time_Now w in
  let now := uint64 (time.UnixNano t) in
  if (0 <? ExpiredAt s) && (now <? ExpiredAt s)
  then (Z.quot (int64 (uint64 (ExpiredAt s - now))) (int64 time.Second), w)
  else (-1, w).

(** The typed conversions: the kind is checked first, then the value is
    decoded into a zero payload. *)
Section Conversions.
Context `{types.Msgpack}.

Definition ToSet (s : Segment) : result types.Set_ :=
  if negb (Type_ s =? Set_) then Err "not support conversion to set type"
  else match types.Unmarshal_set (Value s) with
       | Err e => Err e
       | Ok m => Ok {| types.Set_Set := m; types.Set_TTL := 0 |}
       end.

Definition ToZSet (s : Segment) : result types.ZSet :=
  if negb (Type_ s =? ZSet) then Err "not support conversion to zset type"
  else match types.Unmarshal_zset (Value s) with
       | Err e => Err e
       | Ok m => Ok {| types.ZSet_ZSet := m; types.ZSet_TTL := 0;
                      types.sortedScores := [] |}
       end.

Definition ToText (s : Segment) : result types.Text :=
  if negb (Type_ s =? Text) then Err "not support conversion to text type"
  else match types.Unmarshal_text (Value s) with
       | Err e => Err e
       | Ok c => Ok {| types.Content := c; types.Text_TTL := 0 |}
       end.

Definition ToCollection (s : Segment) : result types.Collection :=
  if negb (Type_ s =? Collection)
  then Err "not support conversion to collection type"
  else match types.Unmarshal_collection (Value s) with
       | Err e => Err e
       | Ok l => Ok {| types.Collection_Collection := l;
                      types.Collection_TTL := 0 |}
       end.

Definition ToTable (s : Segment) : result types.Table :=
  if negb (Type_ s =? Table) then Err "not support conversion to table type"
  else match types.Unmarshal_table (Value s) with
       | Err e => Err e
       | Ok m => Ok {| types.Table_Table := m; types.Table_TTL := 0 |}
       end.

Definition ToNumber (s : Segment) : result types.Number :=
  if negb (Type_ s =? Number) then Err "not support conversion to number type"
  else match types.Unmarshal_number (Value s) with
       | Err e => Err e
       | Ok n => Ok {| types.Value := n; types.Number_TTL := 0 |}
       end.
End Conversions.


(** *** The remaining methods of [Segment] *)

Definition KindToString : gmap Z string :=
  <[Set_ := "set"]> (<[ZSet := "zset"]> (<[Text := "text"]>
  (<[Table := "table"]> (<[Number := "number"]> (<[Unknown := "unknown"]>
  (<[Collection := "collection"]> ∅)))))).

(** Indexing the map yields the empty string for a kind it does not
    have. *)
Definition GetTypeString (s : Segment) : string :=
  default "" (KindToString !! Type_ s).

Definition GetKeyString (s : Segment) : string := string_of_list_byte (Key s).

(** Modelled from the spec: [SEGMENT_PADDING], the fixed header size of
    section 3 (the constant is declared outside the sources at hand; the
    test of [Size] expects 53 for a key of 8 and a value of 15 bytes). *)
Definition SEGMENT_PADDING : Z := 26.

(** [Size]: three additions in [uint32]. *)
Definition Size (s : Segment) : Z :=
  uint32 (uint32 (uint32 (SEGMENT_PADDING + KeySize s) + ValueSize s) + 4).

Definition ToBytes (s : Segment) : bytes := Value s.

Section ToJSON.
Context `{types.Msgpack} `{types.Json}.

Definition ToJSON (s : Segment) : result bytes :=
  if Type_ s =? Set_ then
    match ToSet s with Err e => Err e | Ok set => types.Set_ToJSON set end
  else if Type_ s =? ZSet then
    match ToZSet s with Err e => Err e | Ok zset => types.ZSet_ToJSON zset end
  else if Type_ s =? Text then
    match ToText s with Err e => Err e | Ok text => types.Text_ToJSON text end
  else if Type_ s =? Number then
    match ToNumber s with Err e => Err e | Ok num => types.Number_ToJSON num end
  else if Type_ s =? Table then
    match ToTable s with Err e => Err e | Ok tab => types.Table_ToJSON tab end
  else if Type_ s =? Collection then
    match ToCollection s with
    | Err e => Err e
    | Ok collection => types.Collection_ToJSON collection
    end
  else Err "unknown data type".
End ToJSON.

(** *** Calls of the package, in sequence *)
Section Calls.
Context `{types.Msgpack}.
Variable transformer_Encode : bytes -> result bytes.

Inductive call :=
| CallNewSegment (key : string) (data : Serializable) (ttl : Z)
| CallAcquirePoolSegment (pick : nat) (key : string) (data : Serializable)
    (ttl : Z)
| CallReleaseToPool (seg : Segment)
| CallNewTombstoneSegment (key : string)
| CallTTL (seg : Segment).

Definition run_call (w : World) (c : call) : World :=
  match c with
  | CallNewSegment key data ttl =>
      snd (NewSegment transformer_Encode key data ttl w)
  | CallAcquirePoolSegment pick key data ttl =>
      snd (AcquirePoolSegment transformer_Encode pick key data ttl w)
  | CallReleaseToPool seg => ReleaseToPool seg w
  | CallNewTombstoneSegment key => snd (NewTombstoneSegment key w)
  | CallTTL seg => snd (TTL seg w)
  end.

(** The world after [init] and a sequence of calls, the pool being
    empty before [init]. *)
Definition run_calls (clock0 : nat -> time.Time) (cs : list call) : World :=
  fold_left run_call cs
    (init {| clock := clock0; ticks := 0; segmentPool := [] |}).
End Calls.

End vfs.

(** ** Bytes and big-endian integers *)

Definition byte_of_Z (z : Z) : byte :=
  match Byte.of_N (Z.to_N (z mod 256)) with
  | Some b => b
  | None => x00
  end.

Definition Z_of_byte (b : byte) : Z := Z.of_N (Byte.to_N b).

(** The [n] low bytes of [z], most significant first. *)
Fixpoint be_encode (n : nat) (z : Z) : bytes :=
  match n with
  | O => []
  | S k => byte_of_Z (z / 256 ^ Z.of_nat k) :: be_encode k z
  end.

Definition be_decode (bs : bytes) : Z :=
  fold_left (fun acc b => acc * 256 + Z_of_byte b) bs 0.

(** ** The record codec *)

Module codec.

(** Modelled from the spec: the IEEE CRC32 of section 3 (the checksum
    routine is not part of the sources at hand).  Reflected polynomial
    [0xEDB88320], initial value and final complement [0xFFFFFFFF]. *)
Definition crc32_bit (c : Z) : Z :=
  if Z.odd c then Z.lxor (Z.shiftr c 1) 3988292384 else Z.shiftr c 1.

Definition crc32_byte (crc : Z) (b : byte) : Z :=
  Nat.iter 8 crc32_bit (Z.lxor crc (Z_of_byte b)).

Definition crc32 (bs : bytes) : Z :=
  uint32 (Z.lxor (fold_left crc32_byte bs 4294967295) 4294967295).

(** Modelled from the spec: the 26-byte header of section 3, the fields
    in the authoritative order and widths, multi-byte integers
    big-endian (the serializer of the engine is not part of the sources
    at hand). *)
Definition header (r : vfs.Segment) : bytes :=
  [byte_of_Z (vfs.Tombstone r)] ++ [byte_of_Z (vfs.Type_ r)] ++
  be_encode 8 (vfs.ExpiredAt r) ++ be_encode 8 (vfs.CreatedAt r) ++
  be_encode 4 (vfs.KeySize r) ++ be_encode 4 (vfs.ValueSize r).

(** Modelled from the spec: [frame] of section 4.1, which serializes the
    header, appends key and value, and appends the CRC32 of all prior
    bytes. *)
Definition frame (r : vfs.Segment) : bytes :=
  let prior := header r ++ vfs.Key r ++ vfs.Value r in
  prior ++ be_encode 4 (crc32 prior).

Inductive ParseError := ShortRead | Corrupt.

(** Reading [n] bytes off a stream. *)
Definition split_at (n : nat) (bs : bytes) : bytes * bytes :=
  (firstn n bs, skipn n bs).

Definition take (n : nat) (bs : bytes) : option (bytes * bytes) :=
  if (n <=? List.length bs)%nat then Some (split_at n bs) else None.

(** Modelled from the spec: the fields of a 26-byte header. *)
Definition parse_header (hdr key value : bytes) : vfs.Segment :=
  let '(tb, h) := split_at 1 hdr in
  let '(kb, h) := split_at 1 h in
  let '(eb, h) := split_at 8 h in
  let '(cb, h) := split_at 8 h in
  let '(ksb, h) := split_at 4 h in
  let '(vsb, _) := split_at 4 h in
  {| vfs.Tombstone := int8 (be_decode tb);
     vfs.Type_ := int8 (be_decode kb);
     vfs.ExpiredAt := be_decode eb;
     vfs.CreatedAt := be_decode cb;
     vfs.KeySize := be_decode ksb;
     vfs.ValueSize := be_decode vsb;
     vfs.Key := key;
     vfs.Value := value |}.

(** Modelled from the spec: [parse] of section 4.1, which reads the
    26-byte header, then the KeySize+ValueSize body, then the trailing
    CRC32; it fails with [ShortRead] when fewer bytes than needed remain
    and with [Corrupt] when the CRC does not match.  The bytes after the
    record are returned with it. *)
Definition parse_stream (bs : bytes) : ParseError + vfs.Segment * bytes :=
  match take 26 bs with
  | None => inl ShortRead
  | Some (hdr, rest) =>
      let h := parse_header hdr [] [] in
      let klen := Z.to_nat (vfs.KeySize h) in
      let vlen := Z.to_nat (vfs.ValueSize h) in
      match take (klen + vlen) rest with
      | None => inl ShortRead
      | Some (body, rest) =>
          match take 4 rest with
          | None => inl ShortRead
          | Some (crc, rest) =>
              if be_decode crc =? crc32 (hdr ++ body)
              then inr (parse_header hdr (firstn klen body) (skipn klen body),
                        rest)
              else inl Corrupt
          end
      end
  end.

Definition parse (bs : bytes) : ParseError + vfs.Segment :=
  match parse_stream bs with
  | inl e => inl e
  | inr (r, _) => inr r
  end.

(** The size limits of the data model: every header field fits its
    width, and the two sizes are the lengths of key and value. *)
Definition meets_size_limits (r : vfs.Segment) : Prop :=
  - 2^7 <= vfs.Tombstone r < 2^7 /\
  - 2^7 <= vfs.Type_ r < 2^7 /\
  0 <= vfs.ExpiredAt r < 2^64 /\
  0 <= vfs.CreatedAt r < 2^64 /\
  vfs.KeySize r = len_bytes (vfs.Key r) /\
  vfs.ValueSize r = len_bytes (vfs.Value r) /\
  vfs.KeySize r < 2^32 /\
  vfs.ValueSize r < 2^32.

End codec.

(** ** The engine's [Delete] *)

Module engine.

Record IndexEntry := {
  segment_id : Z;
  offset : Z;
  length : Z;
  expires_ns : Z
}.

(** Modelled from the spec: the engine of sections 4.4 and 4.5 as far as
    [Delete] touches it (the log-structured store itself is not part of
    the sources at hand): the records appended so far, the in-memory
    index, and the per-key version counter. *)
Record Engine := {
  log : list vfs.Segment;
  index : gmap string IndexEntry;
  versions : gmap string Z
}.

(** Modelled from the spec: [Delete(key)] of section 4.5, which always
    writes a tombstone record for the key, removes the index entry if
    present and increments the version of the key. *)
Definition Delete (key : string) (e : Engine) (w : vfs.World)
  : Engine * vfs.World :=
  let '(seg, w) := vfs.NewTombstoneSegment key w in
  ({| log := log e ++ [seg];
      index := delete key (index e);
      versions := <[key := default 0 (versions e !! key) + 1]> (versions e) |},
   w).

(** Modelled from the spec: the index lookup behind [Get], which reports
    a key without entry as not found. *)
Definition lookup (key : string) (e : Engine) : option IndexEntry :=
  index e !! key.

End engine.

(** ** Package [server] *)

Module server.

Definition minPort : Z := 1024.
Definition maxPort : Z := Z.shiftl 1 16.
Definition timeout : Z := time.Duration_mul time.Second 3.

(** The package-level router [root], the handler of every server. *)
Inductive Handler := root.

(** [http.Server], as far as [New] sets it; keep-alives are enabled in
    a server that was never told otherwise. *)
Record http_Server := {
  Handler_ : Handler;
  Addr : string;
  WriteTimeout : Z;
  ReadTimeout : Z;
  KeepAlivesEnabled : bool
}.

Record HttpServer := {
  serv : http_Server;
  port : Z
}.

Record Options := {
  Port : Z;
  Auth : string
}.

(** The package-level variables [New] reads and writes. *)
Record Globals := {
  ipv4 : string;
  authPassword : string
}.

(** [strconv.Itoa]. *)
Definition strconv_Itoa (n : Z) : string := pretty n.

Fixpoint has_colon_or_percent (s : string) : bool :=
  match s with
  | EmptyString => false
  | String c rest =>
      Ascii.eqb c ":" || Ascii.eqb c "%" || has_colon_or_percent rest
  end.

(** [net.JoinHostPort]: a host with a colon or a percent sign is put in
    brackets. *)
Definition net_JoinHostPort (host port : string) : string :=
  if has_colon_or_percent host
  then String.append "[" (String.append host (String.append "]:" port))
  else String.append host (String.append ":" port).

Definition New (opt : Options) (g : Globals) : result HttpServer * Globals :=
  if (Port opt <? minPort) || (Port opt >? maxPort)
  then (Err "HTTP server port illegal", g)
  else
    let g := if negb (String.eqb (Auth opt) "")
             then {| ipv4 := ipv4 g; authPassword := Auth opt |}
             else g in
    let hs :=
      {| serv := {| Handler_ := root;
                    Addr := net_JoinHostPort (ipv4 g) (strconv_Itoa (Port opt));
                    WriteTimeout := timeout;
                    ReadTimeout := timeout;
                    KeepAlivesEnabled := true |};
         port := Port opt |} in
    let hs :=
      {| serv := {| Handler_ := Handler_ (serv hs); Addr := Addr (serv hs);
                    WriteTimeout := WriteTimeout (serv hs);
                    ReadTimeout := ReadTimeout (serv hs);
                    KeepAlivesEnabled := true |};
         port := port hs |} in
    (Ok hs, g).

Definition HttpServer_Port (hs : HttpServer) : Z := port hs.

Definition HttpServer_IPv4 (hs : HttpServer) (g : Globals) : string := ipv4 g.

End server.

(** ** Instances for running the definitions *)

Module sample.

(** msgpack's encoding of a string of at most 31 bytes (fixstr); this
    instance refuses everything else. *)
Definition Marshal_text (s : string) : result bytes :=
  if len_string s <=? 31
  then Ok (byte_of_Z (160 + len_string s) :: bytes_of_string s)
  else Err "msgpack: not supported by this instance".

Definition Unmarshal_text (bs : bytes) : result string :=
  match bs with
  | b :: rest =>
      if (160 <=? Z_of_byte b) && (Z_of_byte b - 160 =? len_bytes rest)
      then Ok (string_of_list_byte rest)
      else Err "msgpack: not supported by this instance"
  | [] => Err "EOF"
  end.

Definition unsupported {A} : result A :=
  Err "msgpack: not supported by this instance".

#[local] Instance msgpack : types.Msgpack := {|
  types.Marshal_set := fun _ => unsupported;
  types.Unmarshal_set := fun _ => unsupported;
  types.Marshal_zset := fun _ => unsupported;
  types.Unmarshal_zset := fun _ => unsupported;
  types.Marshal_text := Marshal_text;
  types.Unmarshal_text := Unmarshal_text;
  types.Marshal_table := fun _ => unsupported;
  types.Unmarshal_table := fun _ => unsupported;
  types.Marshal_number := fun _ => unsupported;
  types.Unmarshal_number := fun _ => unsupported;
  types.Marshal_collection := fun _ => unsupported;
  types.Unmarshal_collection := fun _ => unsupported
|}.

(** The transformer with both stages disabled. *)
Definition identity_Encode (bs : bytes) : result bytes := Ok bs.

(** A wall clock that stands at 2023-11-14T22:13:20Z. *)
Definition world : vfs.World :=
  vfs.init {| vfs.clock := fun _ => 1700000000000000000;
              vfs.ticks := 0;
              vfs.segmentPool := [] |}.

Definition text (content : string) : vfs.Serializable :=
  vfs.Payload (types.PtrText (types.NewText content)).


(** [sort.Slice] as an insertion sort. *)
Fixpoint insert_sorted (less : string -> string -> bool) (x : string)
    (l : list string) : list string :=
  match l with
  | [] => [x]
  | y :: rest =>
      if less y x then y :: insert_sorted less x rest else x :: y :: rest
  end.

Fixpoint insertion_sort (less : string -> string -> bool) (l : list string)
  : list string :=
  match l with
  | [] => []
  | x :: rest => insert_sorted less x (insertion_sort less rest)
  end.

(** [==] on two interface values holding what a JSON document decodes
    to: equal types compare by value, two slices or two maps panic,
    different types are unequal. *)
Definition interface_eq (a b : types.any) : outcome bool :=
  match a, b with
  | types.AnyNil, types.AnyNil => Returned true
  | types.AnyBool x, types.AnyBool y => Returned (Bool.eqb x y)
  | types.AnyInt x, types.AnyInt y => Returned (x =? y)
  | types.AnyFloat x, types.AnyFloat y => Returned (PrimFloat.eqb x y)
  | types.AnyString x, types.AnyString y => Returned (String.eqb x y)
  | types.AnySlice _, types.AnySlice _ =>
      Panicked "runtime error: comparing uncomparable type []interface {}"
  | types.AnyMap _, types.AnyMap _ =>
      Panicked "runtime error: comparing uncomparable type map[string]interface {}"
  | _, _ => Returned false
  end.

Definition quote : string := String (Ascii.ascii_of_nat 34) EmptyString.

(** A [json.Marshal] that knows strings without escapes only. *)
#[local] Instance json : types.Json := {|
  types.json_set := fun _ => unsupported;
  types.json_zset := fun _ => unsupported;
  types.json_text := fun s =>
    Ok (bytes_of_string (String.append quote (String.append s quote)));
  types.json_table := fun _ => unsupported;
  types.json_number := fun _ => unsupported;
  types.json_collection := fun _ => unsupported
|}.

Definition globals : server.Globals :=
  {| server.ipv4 := "127.0.0.1"; server.authPassword := "" |}.


(** msgpack's encoding of a map with no entry, or with one entry whose
    key is a string of at most 31 bytes and whose score is [0.0]. *)
Definition Unmarshal_zset (bs : bytes) : result (gmap string float) :=
  match bs with
  | [b] => if Z_of_byte b =? 128 then Ok ∅ else unsupported
  | m :: k :: rest =>
      let n := Z.to_nat (Z_of_byte k - 160) in
      if (Z_of_byte m =? 129) && (160 <=? Z_of_byte k) && (Z_of_byte k <=? 191)
         && (List.length rest =? n + 9)%nat
         && forallb (fun b => Z_of_byte b =? 0) (skipn (S n) rest)
         && (Z_of_byte (nth n rest x00) =? 203)
      then Ok {[ string_of_list_byte (firstn n rest) := PrimFloat.zero ]}
      else unsupported
  | [] => Err "EOF"
  end.

#[local] Instance msgpack_zset : types.Msgpack := {|
  types.Marshal_set := fun _ => unsupported;
  types.Unmarshal_set := fun _ => unsupported;
  types.Marshal_zset := fun _ => unsupported;
  types.Unmarshal_zset := Unmarshal_zset;
  types.Marshal_text := Marshal_text;
  types.Unmarshal_text := Unmarshal_text;
  types.Marshal_table := fun _ => unsupported;
  types.Unmarshal_table := fun _ => unsupported;
  types.Marshal_number := fun _ => unsupported;
  types.Unmarshal_number := fun _ => unsupported;
  types.Marshal_collection := fun _ => unsupported;
  types.Unmarshal_collection := fun _ => unsupported
|}.

(** The record of the zset [{"a": 0.0}]. *)
Definition zset_record : vfs.Segment :=
  vfs.set_Type vfs.ZSet
    (vfs.set_Value (map byte_of_Z [129; 161; 97; 203; 0; 0; 0; 0; 0; 0; 0; 0])
       vfs.new_Segment).

End sample.

(** ** Vocabulary of the statements *)

(** The world after [n] more calls of [time.Now]. *)
Definition after_ticks (n : nat) (w : vfs.World) : vfs.World :=
  {| vfs.clock := vfs.clock w; vfs.ticks := (n + vfs.ticks w)%nat;
     vfs.segmentPool := vfs.segmentPool w |}.

(** The wall-clock time, in the [uint64] the code keeps it in, that the
    [n]-th coming call of [time.Now] reads. *)
Definition wall_clock (n : nat) (w : vfs.World) : Z :=
  uint64 (time.UnixNano (vfs.clock w (n + vfs.ticks w)%nat)).

(** A conversion to kind [target] that fails on any other kind and
    otherwise returns the decoded value. *)
Definition converts_kind {A B} (target : vfs.Kind)
    (conv : vfs.Segment -> result B) (decode : bytes -> result A)
    (wrap : A -> B) (s : vfs.Segment) : Prop :=
  (vfs.Type_ s <> target -> exists e, conv s = Err e) /\
  (vfs.Type_ s = target ->
   conv s = match decode (vfs.Value s) with
            | Ok v => Ok (wrap v)
            | Err e => Err e
            end).

(** The live record both constructors build from the key, the kind of
    the payload, the encoded value and the two time stamps. *)
Definition live_record (key : string) (data : vfs.Serializable)
    (encodedata : bytes) (timestamp expiredAt : Z) : vfs.Segment :=
  {| vfs.Tombstone := 0;
     vfs.Type_ := vfs.toKind data;
     vfs.ExpiredAt := expiredAt;
     vfs.CreatedAt := timestamp;
     vfs.KeySize := uint32 (len_string key);
     vfs.ValueSize := uint32 (len_bytes encodedata);
     vfs.Key := bytes_of_string key;
     vfs.Value := encodedata |}.

(** Every pooled payload is as its constructor returns it; the zset
    pool may also hold new [Set]s. *)
Definition pools_hold_new_values (ps : types.Pools) : Prop :=
  Forall (eq (types.PtrCollection types.NewCollection))
    (types.collectionPools ps) /\
  Forall (eq (types.PtrNumber (types.NewNumber 0))) (types.numberPools ps) /\
  Forall (eq (types.PtrSet types.NewSet)) (types.setPools ps) /\
  Forall (eq (types.PtrTable types.NewTable)) (types.tablePools ps) /\
  Forall (eq (types.PtrText (types.NewText ""))) (types.textPools ps) /\
  Forall (fun o => o = types.PtrZSet types.NewZSet \/
                   o = types.PtrSet types.NewSet) (types.zsetPools ps).

(** The mathematical set a sequence of [Add] and [Remove] builds. *)
Definition set_of_ops (ops : list types.Set_op) : gset string :=
  fold_left (fun X o => match o with
                        | types.SAdd v => {[v]} ∪ X
                        | types.SRemove v => X ∖ {[v]}
                        end) ops ∅.

(** [sortedScores] lists the members of the sorted set, each once. *)
Definition lists_members (z : types.ZSet) : Prop :=
  NoDup (types.sortedScores z) /\
  forall v, v ∈ types.sortedScores z <-> is_Some (types.ZSet_ZSet z !! v).

(** A pooled segment that carries nothing of a record but, possibly,
    its kind. *)
Definition carries_no_record (s : vfs.Segment) : Prop :=
  vfs.Tombstone s = 0 /\ vfs.ExpiredAt s = 0 /\ vfs.CreatedAt s = 0 /\
  vfs.KeySize s = 0 /\ vfs.ValueSize s = 0 /\
  vfs.Key s = [] /\ vfs.Value s = [].

(** * Properties *)

(** ** Integer conversions *)

Lemma uint64_int64 z : uint64 (int64 z) = uint64 z.
Proof.
  unfold uint64, int64.
  rewrite Zminus_mod_idemp_l. f_equal. lia.
Qed.

Lemma uint64_small z : 0 <= z < 2^64 -> uint64 z = z.
Proof. intros Hz. unfold uint64. apply Z.mod_small. exact Hz. Qed.

Lemma uint32_small z : 0 <= z < 2^32 -> uint32 z = z.
Proof. intros Hz. unfold uint32. apply Z.mod_small. exact Hz. Qed.

Lemma int64_small z : - 2^63 <= z < 2^63 -> int64 z = z.
Proof. intros Hz. unfold int64. rewrite Z.mod_small; lia. Qed.

Lemma int8_of_low_byte z : - 2^7 <= z < 2^7 -> int8 (z mod 256) = z.
Proof.
  intros Hz. unfold int8. change (2^8) with 256.
  rewrite Zplus_mod_idemp_l. rewrite Z.mod_small; lia.
Qed.

(** ** Bytes *)

Lemma Z_of_byte_of_Z z : Z_of_byte (byte_of_Z z) = z mod 256.
Proof.
  unfold Z_of_byte, byte_of_Z.
  pose proof (Z.mod_pos_bound z 256 eq_refl) as Hb.
  destruct (Byte.of_N (Z.to_N (z mod 256))) as [b|] eqn:Hof.
  - apply Byte.to_of_N in Hof. rewrite Hof. lia.
  - apply Byte.of_N_None_iff in Hof. lia.
Qed.

Lemma be_encode_length n z : List.length (be_encode n z) = n.
Proof. induction n as [|n IH]; simpl; [reflexivity | now rewrite IH]. Qed.

Lemma be_fold_encode n : forall z acc,
  fold_left (fun a b => a * 256 + Z_of_byte b) (be_encode n z) acc =
  acc * 256 ^ Z.of_nat n + z mod 256 ^ Z.of_nat n.
Proof.
  induction n as [|n IH]; intros z acc.
  - simpl. rewrite Z.mod_1_r. lia.
  - cbn [be_encode fold_left]. rewrite IH, Z_of_byte_of_Z.
    rewrite Nat2Z.inj_succ, Z.pow_succ_r by lia.
    assert (Hp : 0 < 256 ^ Z.of_nat n) by (apply Z.pow_pos_nonneg; lia).
    rewrite (Z.mul_comm 256 (256 ^ Z.of_nat n)).
    rewrite (Z.rem_mul_r z (256 ^ Z.of_nat n) 256) by lia.
    lia.
Qed.

Lemma be_decode_encode n z : be_decode (be_encode n z) = z mod 256 ^ Z.of_nat n.
Proof. unfold be_decode. rewrite be_fold_encode. lia. Qed.

Lemma be_decode_byte z : be_decode [byte_of_Z z] = z mod 256.
Proof. unfold be_decode. cbn [fold_left]. now rewrite Z_of_byte_of_Z. Qed.

Lemma length_bytes_of_string s :
  List.length (bytes_of_string s) = String.length s.
Proof.
  unfold bytes_of_string, list_byte_of_string.
  rewrite length_map. induction s as [|a s IH]; simpl; congruence.
Qed.

(** ** C1: the record codec *)

Lemma split_at_app n (a b : bytes) :
  List.length a = n -> codec.split_at n (a ++ b) = (a, b).
Proof.
  intros <-. unfold codec.split_at.
  rewrite firstn_app, skipn_app, Nat.sub_diag, firstn_all, skipn_all.
  simpl. now rewrite app_nil_r.
Qed.

Lemma split_at_all n (a : bytes) :
  List.length a = n -> codec.split_at n a = (a, []).
Proof.
  intros Hn. rewrite <- (app_nil_r a) at 1. now apply split_at_app.
Qed.

Lemma take_app n (a b : bytes) :
  List.length a = n -> codec.take n (a ++ b) = Some (a, b).
Proof.
  intros Hn. unfold codec.take. rewrite split_at_app by exact Hn.
  rewrite length_app, Hn.
  destruct (Nat.leb_spec n (n + List.length b)) as [_|Hlt]; [reflexivity | lia].
Qed.

Lemma header_length r : List.length (codec.header r) = 26%nat.
Proof. unfold codec.header. rewrite !length_app, !be_encode_length. reflexivity. Qed.

Lemma parse_header_header r key value :
  - 2^7 <= vfs.Tombstone r < 2^7 ->
  - 2^7 <= vfs.Type_ r < 2^7 ->
  0 <= vfs.ExpiredAt r < 2^64 ->
  0 <= vfs.CreatedAt r < 2^64 ->
  0 <= vfs.KeySize r < 2^32 ->
  0 <= vfs.ValueSize r < 2^32 ->
  codec.parse_header (codec.header r) key value =
  {| vfs.Tombstone := vfs.Tombstone r; vfs.Type_ := vfs.Type_ r;
     vfs.ExpiredAt := vfs.ExpiredAt r; vfs.CreatedAt := vfs.CreatedAt r;
     vfs.KeySize := vfs.KeySize r; vfs.ValueSize := vfs.ValueSize r;
     vfs.Key := key; vfs.Value := value |}.
Proof.
  intros Ht Hk He Hc Hks Hvs.
  unfold codec.parse_header, codec.header.
  rewrite !split_at_app by (simpl; now rewrite ?be_encode_length).
  rewrite split_at_all by apply be_encode_length.
  rewrite !be_decode_byte, !be_decode_encode.
  rewrite !int8_of_low_byte by assumption.
  change (256 ^ Z.of_nat 8) with (2^64).
  change (256 ^ Z.of_nat 4) with (2^32).
  rewrite !Z.mod_small by assumption.
  reflexivity.
Qed.

Lemma parse_stream_frame r rest :
  codec.meets_size_limits r ->
  codec.parse_stream (codec.frame r ++ rest) = inr (r, rest).
Proof.
  intros (Ht & Hk & He & Hc & Hks & Hvs & Hkb & Hvb).
  assert (Hks0 : 0 <= vfs.KeySize r < 2^32) by (unfold len_bytes in Hks; lia).
  assert (Hvs0 : 0 <= vfs.ValueSize r < 2^32) by (unfold len_bytes in Hvs; lia).
  unfold codec.parse_stream, codec.frame. cbv zeta.
  set (crc := codec.crc32 _).
  rewrite <- !List.app_assoc.
  rewrite take_app by apply header_length.
  rewrite parse_header_header by assumption. cbn [vfs.KeySize vfs.ValueSize].
  rewrite Hks, Hvs. unfold len_bytes. rewrite !Nat2Z.id.
  rewrite (List.app_assoc (vfs.Key r)).
  rewrite take_app by apply length_app.
  rewrite take_app by apply be_encode_length.
  rewrite be_decode_encode. change (256 ^ Z.of_nat 4) with (2^32).
  subst crc.
  assert (Hcrc : forall bs, codec.crc32 bs mod 2^32 = codec.crc32 bs).
  { intros bs. unfold codec.crc32, uint32. apply Z.mod_mod. discriminate. }
  rewrite Hcrc, Z.eqb_refl.
  rewrite parse_header_header by assumption.
  rewrite firstn_app, skipn_app, Nat.sub_diag, firstn_all, skipn_all.
  simpl. rewrite app_nil_r.
  destruct r; cbn in *. unfold len_bytes in *. subst. reflexivity.
Qed.

(** C1. For every record [r] that meets the size limits of the data
    model, parsing the framed encoding of [r] returns [r] unchanged:
    [parse (frame r) = r]. *)
Theorem parse_frame_roundtrip (r : vfs.Segment) :
  codec.meets_size_limits r -> codec.parse (codec.frame r) = inr r.
Proof.
  intros Hr. unfold codec.parse.
  rewrite <- (app_nil_r (codec.frame r)).
  now rewrite parse_stream_frame.
Qed.

Lemma parse_frame_roundtrip_witness :
  let r := {| vfs.Tombstone := 0; vfs.Type_ := vfs.Text;
              vfs.ExpiredAt := 0; vfs.CreatedAt := 1700000000000000000;
              vfs.KeySize := 5; vfs.ValueSize := 6;
              vfs.Key := bytes_of_string "hello";
              vfs.Value := byte_of_Z 165 :: bytes_of_string "world" |} in
  codec.meets_size_limits r /\ codec.parse (codec.frame r) = inr r.
Proof.
  intros r.
  assert (Hr : codec.meets_size_limits r).
  { unfold codec.meets_size_limits, r; cbn [vfs.Tombstone vfs.Type_
      vfs.ExpiredAt vfs.CreatedAt vfs.KeySize vfs.ValueSize vfs.Key vfs.Value].
    repeat split; try reflexivity; vm_compute; discriminate. }
  split; [exact Hr | apply (parse_frame_roundtrip r Hr)].
Defined.

(** The check value of CRC-32/IEEE. *)
Example crc32_check : codec.crc32 (bytes_of_string "123456789") = 3421780262.
Proof. vm_compute. reflexivity. Qed.

(** A frame cut short and a frame with one bit flipped do not parse. *)
Example parse_truncated :
  let f := codec.frame (vfs.NewTombstoneSegment "k" sample.world).1 in
  codec.parse (firstn 30 f) = inl codec.ShortRead.
Proof. vm_compute. reflexivity. Qed.

Example parse_bit_flipped :
  let f := codec.frame (vfs.NewTombstoneSegment "k" sample.world).1 in
  codec.parse (firstn 26 f ++ [byte_of_Z 106] ++ skipn 27 f) = inl codec.Corrupt.
Proof. vm_compute. reflexivity. Qed.

(** ** C7: configuration validation *)

Lemma valid_at_spec n : conf.valid_at n = true <-> n = 16 \/ n = 24 \/ n = 32.
Proof.
  unfold conf.valid_at, conf.valid. split.
  - intros H.
    destruct (decide (n = 16)) as [-> | H16]; [auto|].
    destruct (decide (n = 24)) as [-> | H24]; [auto|].
    destruct (decide (n = 32)) as [-> | H32]; [auto|].
    rewrite !lookup_insert_ne, lookup_empty in H by congruence.
    discriminate.
  - intros [-> | [-> | ->]]; reflexivity.
Qed.

Lemma validatePort_nil p : conf.validatePort p = None <-> 1025 <= p <= 65534.
Proof.
  unfold conf.validatePort.
  destruct (p <=? 1024) eqn:Hlo; destruct (p >=? 65535) eqn:Hhi; simpl;
    split; try discriminate; try reflexivity; lia.
Qed.

Lemma validatePath_nil s : conf.validatePath s = None <-> s <> "".
Proof.
  unfold conf.validatePath. destruct (String.eqb_spec s ""); split;
    congruence.
Qed.

Lemma validatePassword_nil s : conf.validatePassword s = None <-> s <> "".
Proof.
  unfold conf.validatePassword. destruct (String.eqb_spec s ""); split;
    congruence.
Qed.

Lemma validateEncryptor_nil e :
  conf.validateEncryptor e = None <->
  (conf.Encryptor_Enable e = false \/
   len_string (conf.Secret e) = 16 \/ len_string (conf.Secret e) = 24 \/
   len_string (conf.Secret e) = 32).
Proof.
  unfold conf.validateEncryptor. destruct (conf.Encryptor_Enable e); simpl.
  - destruct (conf.valid_at (len_string (conf.Secret e))) eqn:Hv.
    + apply valid_at_spec in Hv. tauto.
    + split; [discriminate|]. intros [H|H]; [discriminate|].
      apply valid_at_spec in H. congruence.
  - tauto.
Qed.

(** C7. [Vaildated opt] returns [nil] exactly when the port is in
    [1025, 65534], the path and the password are non-empty and the
    encryptor is disabled or its secret is 16, 24 or 32 bytes long; in
    every other case it returns an error. *)
Theorem Vaildated_nil_iff_valid_config (opt : conf.ServerOptions) :
  (conf.Vaildated opt = None <-> conf.valid_config opt) /\
  (~ conf.valid_config opt -> exists e, conf.Vaildated opt = Some e).
Proof.
  assert (Hiff : conf.Vaildated opt = None <-> conf.valid_config opt).
  { unfold conf.Vaildated, conf.valid_config; simpl.
    rewrite <- validatePort_nil, <- validatePath_nil,
      <- validatePassword_nil, <- validateEncryptor_nil.
    destruct (conf.validatePort (conf.Port opt)); [intuition discriminate|].
    destruct (conf.validatePath (conf.Path opt)); [intuition discriminate|].
    destruct (conf.validatePassword (conf.Password opt)); [intuition discriminate|].
    destruct (conf.validateEncryptor (conf.encryptor opt)); intuition discriminate. }
  split; [exact Hiff|].
  intros Hbad. destruct (conf.Vaildated opt) as [e|] eqn:Hv; [eauto|].
  exfalso. apply Hbad, Hiff. reflexivity.
Qed.

Lemma Vaildated_nil_iff_valid_config_witness :
  conf.Vaildated conf.Default = None /\
  exists e, conf.Vaildated (conf.with_Port 70000 conf.Default) = Some e.
Proof.
  split.
  - apply (proj1 (Vaildated_nil_iff_valid_config conf.Default)).
    unfold conf.valid_config; cbn. repeat split; try lia; try discriminate.
  - apply (proj2 (Vaildated_nil_iff_valid_config
                    (conf.with_Port 70000 conf.Default))).
    unfold conf.valid_config; cbn. lia.
Defined.

(** ** The write path: [NewSegment] and [AcquirePoolSegment] *)

Lemma expiry_mod t ttl :
  uint64 (time.UnixNano
            (time.Add t (time.Duration_mul time.Second (time.Duration ttl)))) =
  (uint64 (time.UnixNano t) + ttl * 10^9) mod 2^64.
Proof.
  unfold time.UnixNano, time.Add, time.Duration_mul, time.Duration, time.Second.
  rewrite !uint64_int64. unfold uint64.
  rewrite Zplus_mod_idemp_l.
  rewrite <- (Zplus_mod_idemp_r (int64 _)).
  fold (uint64 (int64 (1000000000 * int64 ttl))). rewrite uint64_int64.
  unfold uint64. rewrite <- (Zmult_mod_idemp_r (int64 ttl)).
  fold (uint64 (int64 ttl)). rewrite uint64_int64. unfold uint64.
  rewrite Zmult_mod_idemp_r, Zplus_mod_idemp_r.
  f_equal. lia.
Qed.

Lemma stamps_eq ttl w :
  vfs.stamps ttl w =
  if 0 <? ttl
  then (wall_clock 0 w, (wall_clock 1 w + ttl * 10^9) mod 2^64, after_ticks 2 w)
  else (wall_clock 0 w, 0, after_ticks 1 w).
Proof.
  unfold vfs.stamps, vfs.time_Now, wall_clock, after_ticks. cbn.
  destruct (0 <? ttl); [|reflexivity].
  now rewrite expiry_mod.
Qed.

Lemma stamps_with_segmentPool ttl p w :
  vfs.stamps ttl (vfs.with_segmentPool p w) =
  ((vfs.stamps ttl w).1, vfs.with_segmentPool p (vfs.stamps ttl w).2).
Proof.
  unfold vfs.stamps, vfs.time_Now, vfs.with_segmentPool. cbn.
  destruct (0 <? ttl); reflexivity.
Qed.

Section WritePath.
Context `{types.Msgpack}.
Variable transformer_Encode : bytes -> result bytes.

Lemma NewSegment_Ok key data ttl w bs encodedata :
  vfs.Serializable_ToBytes data = Ok bs ->
  transformer_Encode bs = Ok encodedata ->
  vfs.NewSegment transformer_Encode key data ttl w =
  (Ok (live_record key data encodedata
         (vfs.stamps ttl w).1.1 (vfs.stamps ttl w).1.2),
   (vfs.stamps ttl w).2).
Proof.
  intros Hb He. unfold vfs.NewSegment.
  destruct (vfs.stamps ttl w) as [[ts ex] w'].
  now rewrite Hb, He.
Qed.

Lemma AcquirePoolSegment_Ok pick key data ttl w bs encodedata :
  vfs.Serializable_ToBytes data = Ok bs ->
  transformer_Encode bs = Ok encodedata ->
  vfs.AcquirePoolSegment transformer_Encode pick key data ttl w =
  (Ok (live_record key data encodedata
         (vfs.stamps ttl w).1.1 (vfs.stamps ttl w).1.2),
   vfs.with_segmentPool
     (pool_Get vfs.new_Segment pick (vfs.segmentPool w)).2
     (vfs.stamps ttl w).2).
Proof.
  intros Hb He. unfold vfs.AcquirePoolSegment.
  destruct (pool_Get vfs.new_Segment pick (vfs.segmentPool w)) as [seg p].
  rewrite stamps_with_segmentPool.
  destruct (vfs.stamps ttl w) as [[ts ex] w'].
  now rewrite Hb, He.
Qed.

(** C2, as the code has it.  On the write path ([NewSegment] and
    [AcquirePoolSegment]) a payload that serializes and encodes gets a
    segment whose [ExpiredAt] is [0] when [ttl = 0] and, when
    [ttl > 0], the wall-clock time read for the expiry plus
    [ttl * 10^9] nanoseconds reduced modulo [2^64]: the sum itself
    whenever it is below [2^64]. *)
Theorem write_path_ExpiredAt key data ttl pick w bs encodedata :
  vfs.Serializable_ToBytes data = Ok bs ->
  transformer_Encode bs = Ok encodedata ->
  exists s1 w1 s2 w2,
    vfs.NewSegment transformer_Encode key data ttl w = (Ok s1, w1) /\
    vfs.AcquirePoolSegment transformer_Encode pick key data ttl w
      = (Ok s2, w2) /\
    vfs.ExpiredAt s2 = vfs.ExpiredAt s1 /\
    (ttl = 0 -> vfs.ExpiredAt s1 = 0) /\
    (0 < ttl ->
     vfs.ExpiredAt s1 = (wall_clock 1 w + ttl * 10^9) mod 2^64) /\
    (0 < ttl -> wall_clock 1 w + ttl * 10^9 < 2^64 ->
     vfs.ExpiredAt s1 = wall_clock 1 w + ttl * 10^9).
Proof.
  intros Hb He.
  rewrite (NewSegment_Ok key data ttl w bs encodedata Hb He).
  rewrite (AcquirePoolSegment_Ok pick key data ttl w bs encodedata Hb He).
  do 4 eexists. split; [reflexivity|]. split; [reflexivity|].
  cbn [live_record vfs.ExpiredAt]. split; [reflexivity|].
  rewrite stamps_eq.
  assert (Hnow : 0 <= wall_clock 1 w).
  { unfold wall_clock, uint64. apply Z.mod_pos_bound. reflexivity. }
  split; [|split].
  - intros ->. reflexivity.
  - intros Hpos. destruct (Z.ltb_spec 0 ttl); [reflexivity | lia].
  - intros Hpos Hfit. destruct (Z.ltb_spec 0 ttl); [|lia].
    cbn. apply Z.mod_small. lia.
Qed.
End WritePath.

Lemma write_path_ExpiredAt_witness :
  let bs := byte_of_Z 165 :: bytes_of_string "world" in
  vfs.Serializable_ToBytes (H := sample.msgpack) (sample.text "world") = Ok bs /\
  sample.identity_Encode bs = Ok bs /\
  exists s1 w1 s2 w2,
    vfs.NewSegment (H := sample.msgpack) sample.identity_Encode
      "hello" (sample.text "world") 60 sample.world = (Ok s1, w1) /\
    vfs.AcquirePoolSegment (H := sample.msgpack) sample.identity_Encode
      0 "hello" (sample.text "world") 60 sample.world = (Ok s2, w2) /\
    vfs.ExpiredAt s2 = vfs.ExpiredAt s1 /\
    (60 = 0 -> vfs.ExpiredAt s1 = 0) /\
    (0 < 60 ->
     vfs.ExpiredAt s1 = (wall_clock 1 sample.world + 60 * 10^9) mod 2^64) /\
    (0 < 60 -> wall_clock 1 sample.world + 60 * 10^9 < 2^64 ->
     vfs.ExpiredAt s1 = wall_clock 1 sample.world + 60 * 10^9).
Proof.
  intros bs. split; [reflexivity|]. split; [reflexivity|].
  apply (write_path_ExpiredAt (H := sample.msgpack) sample.identity_Encode
           "hello" (sample.text "world") 60 0%nat sample.world bs bs);
    reflexivity.
Defined.

(** C2 as stated fails once [now + ttl * 10^9] leaves the 64 bits of
    [ExpiredAt]: a ttl of 18446744074 seconds (some 584 years) yields an
    expiry 290448384 nanoseconds after the clock reading. *)
Lemma write_path_ExpiredAt_overflow :
  exists s w',
    vfs.NewSegment (H := sample.msgpack) sample.identity_Encode
      "k" (sample.text "v") 18446744074 sample.world = (Ok s, w') /\
    0 < 18446744074 < 2^64 /\
    wall_clock 1 sample.world = 1700000000000000000 /\
    vfs.ExpiredAt s = 1700000000290448384 /\
    vfs.ExpiredAt s <> wall_clock 1 sample.world + 18446744074 * 10^9.
Proof.
  do 2 eexists. split; [reflexivity|].
  split; [lia|]. split; [reflexivity|]. split; [reflexivity|].
  vm_compute. discriminate.
Qed.

(** ** C3: [TTL] *)

(** C3, as the code has it.  [TTL] returns [-1] when the record has no
    expiry ([ExpiredAt = 0]) and when it is already expired
    ([ExpiredAt <= now]); otherwise, when [ExpiredAt - now] is below
    [2^63], it returns the whole number of seconds remaining,
    [floor ((ExpiredAt - now) / 10^9)]. *)
Theorem TTL_whole_seconds (s : vfs.Segment) (w : vfs.World) :
  (vfs.ExpiredAt s = 0 \/ vfs.ExpiredAt s <= wall_clock 0 w ->
   (vfs.TTL s w).1 = -1) /\
  (wall_clock 0 w < vfs.ExpiredAt s ->
   vfs.ExpiredAt s - wall_clock 0 w < 2^63 ->
   (vfs.TTL s w).1 = (vfs.ExpiredAt s - wall_clock 0 w) / 10^9).
Proof.
  assert (Hnow : 0 <= wall_clock 0 w).
  { unfold wall_clock, uint64. apply Z.mod_pos_bound. reflexivity. }
  unfold vfs.TTL, vfs.time_Now. cbn [vfs.clock vfs.ticks].
  change (uint64 (time.UnixNano (vfs.clock w (vfs.ticks w))))
    with (wall_clock 0 w).
  split.
  - intros [H0 | Hle].
    + rewrite H0. reflexivity.
    + destruct (Z.ltb_spec (wall_clock 0 w) (vfs.ExpiredAt s)); [lia|].
      now rewrite andb_false_r.
  - intros Hlt Hfit.
    destruct (Z.ltb_spec 0 (vfs.ExpiredAt s)); [|lia].
    destruct (Z.ltb_spec (wall_clock 0 w) (vfs.ExpiredAt s)); [|lia].
    cbn [andb fst].
    rewrite uint64_small by lia. rewrite int64_small by lia.
    unfold time.Second. rewrite int64_small by lia.
    apply Z.quot_div_nonneg; lia.
Qed.

Lemma TTL_whole_seconds_witness :
  let s := vfs.set_ExpiredAt 1700000090500000000 vfs.new_Segment in
  wall_clock 0 sample.world < vfs.ExpiredAt s /\
  vfs.ExpiredAt s - wall_clock 0 sample.world < 2^63 /\
  (vfs.TTL s sample.world).1 = 90 /\
  (vfs.TTL vfs.new_Segment sample.world).1 = -1.
Proof.
  intros s.
  assert (H1 : wall_clock 0 sample.world < vfs.ExpiredAt s) by reflexivity.
  assert (H2 : vfs.ExpiredAt s - wall_clock 0 sample.world < 2^63)
    by reflexivity.
  split; [exact H1|]. split; [exact H2|]. split.
  - rewrite (proj2 (TTL_whole_seconds s sample.world) H1 H2). reflexivity.
  - apply (proj1 (TTL_whole_seconds vfs.new_Segment sample.world)).
    left. reflexivity.
Defined.

(** C3 as stated fails when more than [2^63] nanoseconds remain: the
    segment written with a ttl of [10^10] seconds reports a negative
    TTL, where the stated quotient is [10^10]. *)
Lemma TTL_far_expiry :
  exists s w',
    vfs.NewSegment (H := sample.msgpack) sample.identity_Encode
      "k" (sample.text "v") 10000000000 sample.world = (Ok s, w') /\
    vfs.ExpiredAt s = 11700000000000000000 /\
    wall_clock 0 w' < vfs.ExpiredAt s /\
    (vfs.ExpiredAt s - wall_clock 0 w') / 10^9 = 10000000000 /\
    (vfs.TTL s w').1 = -8446744073.
Proof.
  do 2 eexists. split; [reflexivity|].
  repeat split; vm_compute; reflexivity.
Qed.

(** ** C4: tombstones and [Delete] *)

Lemma NewTombstoneSegment_eq key w :
  vfs.NewTombstoneSegment key w =
  ({| vfs.Tombstone := 1; vfs.Type_ := vfs.Unknown;
      vfs.ExpiredAt := 0; vfs.CreatedAt := wall_clock 0 w;
      vfs.KeySize := uint32 (len_string key); vfs.ValueSize := 0;
      vfs.Key := bytes_of_string key; vfs.Value := [] |},
   after_ticks 1 w).
Proof. reflexivity. Qed.

Lemma Delete_index key e w :
  engine.index (engine.Delete key e w).1 = delete key (engine.index e).
Proof. reflexivity. Qed.

(** C4. For every key [k] of the data model (at most [2^32 - 1] bytes),
    present in the index or not, [Delete k] appends to the log exactly
    the record [NewTombstoneSegment k] builds, which has
    [Tombstone = 1], [Kind = Unknown], an empty value with
    [ValueSize = 0], [ExpiredAt = 0], the key [k] and [KeySize = len k];
    the key is then absent from the index, and deleting it again leaves
    the index as it is. *)
Theorem Delete_writes_tombstone (k : string) (e : engine.Engine)
    (w : vfs.World) :
  len_string k <= 2^32 - 1 ->
  let seg := (vfs.NewTombstoneSegment k w).1 in
  let e1 := (engine.Delete k e w).1 in
  let w1 := (engine.Delete k e w).2 in
  engine.log e1 = engine.log e ++ [seg] /\
  vfs.Tombstone seg = 1 /\
  vfs.IsTombstone seg = true /\
  vfs.Type_ seg = vfs.Unknown /\
  vfs.Value seg = [] /\
  vfs.ValueSize seg = 0 /\
  vfs.ExpiredAt seg = 0 /\
  vfs.Key seg = bytes_of_string k /\
  vfs.KeySize seg = len_string k /\
  vfs.KeySize seg = len_bytes (vfs.Key seg) /\
  engine.lookup k e1 = None /\
  engine.index (engine.Delete k e1 w1).1 = engine.index e1.
Proof.
  intros Hlen seg e1 w1. subst seg e1 w1.
  rewrite NewTombstoneSegment_eq. cbn [fst snd].
  assert (Hsz : uint32 (len_string k) = len_string k).
  { apply uint32_small. unfold len_string in *. lia. }
  repeat split; cbn; try assumption.
  - unfold len_bytes. rewrite length_bytes_of_string. exact Hsz.
  - unfold engine.lookup. cbn. apply lookup_delete_eq.
  - apply delete_delete_eq.
Qed.

Lemma Delete_writes_tombstone_witness :
  let e := {| engine.log := []; engine.index := ∅; engine.versions := ∅ |} in
  len_string "mock-key" <= 2^32 - 1 /\
  engine.log (engine.Delete "mock-key" e sample.world).1 =
    [(vfs.NewTombstoneSegment "mock-key" sample.world).1] /\
  vfs.KeySize (vfs.NewTombstoneSegment "mock-key" sample.world).1 = 8.
Proof.
  intros e.
  assert (Hlen : len_string "mock-key" <= 2^32 - 1) by (vm_compute; discriminate).
  pose proof (Delete_writes_tombstone "mock-key" e sample.world Hlen) as Hd.
  cbv zeta in Hd.
  split; [exact Hlen|]. split.
  - exact (proj1 Hd).
  - destruct Hd as (_ & _ & _ & _ & _ & _ & _ & _ & Hks & _).
    rewrite Hks. reflexivity.
Defined.

(** ** C5: typed conversions *)

Section TypedConversions.
Context `{types.Msgpack}.

Ltac unfold_conversions :=
  unfold vfs.ToSet, vfs.ToZSet, vfs.ToText, vfs.ToTable, vfs.ToNumber,
    vfs.ToCollection.

Ltac wrong_kind :=
  intros Hne; unfold_conversions;
  match goal with
  | |- context [?a =? ?b] =>
      destruct (Z.eqb_spec a b) as [Heq | _];
      [contradiction | cbn [negb]; eexists; reflexivity]
  end.

Ltac right_kind :=
  intros Heq; unfold_conversions; rewrite Heq, Z.eqb_refl; reflexivity.

(** C5. Each of [ToSet], [ToZSet], [ToText], [ToTable], [ToNumber] and
    [ToCollection] fails with an error, returning no value, on a
    segment of another kind, and on a segment of its own kind returns
    the msgpack-decoded payload of [s.Value], or the error of the
    decoder. *)
Theorem typed_conversions_check_kind (s : vfs.Segment) :
  converts_kind vfs.Set_ vfs.ToSet types.Unmarshal_set
    (fun m => {| types.Set_Set := m; types.Set_TTL := 0 |}) s /\
  converts_kind vfs.ZSet vfs.ToZSet types.Unmarshal_zset
    (fun m => {| types.ZSet_ZSet := m; types.ZSet_TTL := 0;
                 types.sortedScores := [] |}) s /\
  converts_kind vfs.Text vfs.ToText types.Unmarshal_text
    (fun c => {| types.Content := c; types.Text_TTL := 0 |}) s /\
  converts_kind vfs.Table vfs.ToTable types.Unmarshal_table
    (fun m => {| types.Table_Table := m; types.Table_TTL := 0 |}) s /\
  converts_kind vfs.Number vfs.ToNumber types.Unmarshal_number
    (fun n => {| types.Value := n; types.Number_TTL := 0 |}) s /\
  converts_kind vfs.Collection vfs.ToCollection types.Unmarshal_collection
    (fun l => {| types.Collection_Collection := l;
                 types.Collection_TTL := 0 |}) s.
Proof.
  unfold converts_kind. repeat split; first [wrong_kind | right_kind].
Qed.
End TypedConversions.

Lemma typed_conversions_check_kind_witness :
  let s := live_record "hello" (sample.text "world")
             (byte_of_Z 165 :: bytes_of_string "world") 0 0 in
  vfs.Type_ s = vfs.Text /\
  vfs.Type_ s <> vfs.Number /\
  vfs.ToText (H := sample.msgpack) s = Ok (types.NewText "world") /\
  exists e, vfs.ToNumber (H := sample.msgpack) s = Err e.
Proof.
  intros s.
  pose proof (typed_conversions_check_kind (H := sample.msgpack) s)
    as (_ & _ & [_ Htext] & _ & [Hnum _] & _).
  assert (Hk : vfs.Type_ s = vfs.Text) by reflexivity.
  assert (Hn : vfs.Type_ s <> vfs.Number) by discriminate.
  split; [exact Hk|]. split; [exact Hn|]. split.
  - rewrite (Htext Hk). reflexivity.
  - exact (Hnum Hn).
Defined.

(** ** C6: the kind of a written record *)

(** The six payload types map to the six payload kinds. *)
Lemma toKind_Payload (o : types.object) :
  vfs.toKind (vfs.Payload o) <> vfs.Unknown /\
  In (vfs.toKind (vfs.Payload o))
     [vfs.Set_; vfs.ZSet; vfs.Text; vfs.Table; vfs.Number; vfs.Collection].
Proof. destruct o; split; try discriminate; cbn; tauto. Qed.

(** Any other [Serializable] is given the kind [Unknown], and
    [NewSegment] builds a live record of that kind from it. *)
Lemma NewSegment_Foreign `{types.Msgpack} (Encode : bytes -> result bytes)
    key bs encodedata ttl w :
  Encode bs = Ok encodedata ->
  exists s w',
    vfs.NewSegment Encode key (vfs.Foreign (Ok bs)) ttl w = (Ok s, w') /\
    vfs.Tombstone s = 0 /\ vfs.Type_ s = vfs.Unknown.
Proof.
  intros He.
  rewrite (NewSegment_Ok Encode key (vfs.Foreign (Ok bs)) ttl w bs encodedata
             eq_refl He).
  do 2 eexists. split; [reflexivity|]. split; reflexivity.
Qed.

(** C6 fails on the code.  A [Collection] passed by value (its
    [ToBytes] has a value receiver in [types/collection.go], line 200) is a
    [Serializable] that [toKind] does not know: [NewSegment] returns for
    it, without error, a live record of kind [Unknown].  The bytes are
    msgpack's encoding of the empty list. *)
Theorem NewSegment_live_record_of_kind_Unknown :
  exists s w',
    vfs.NewSegment (H := sample.msgpack) sample.identity_Encode
      "k" (vfs.Foreign (Ok [byte_of_Z 144])) 0 sample.world = (Ok s, w') /\
    vfs.Tombstone s = 0 /\
    vfs.IsTombstone s = false /\
    vfs.Type_ s = vfs.Unknown /\
    vfs.Type_ s = 5.
Proof.
  do 2 eexists. split; [reflexivity|]. repeat split.
Qed.

(** ** C8: the empty key *)

Section EmptyKey.
Context `{types.Msgpack}.
Variable transformer_Encode : bytes -> result bytes.

Lemma NewSegment_is_Ok key data ttl w :
  is_Ok (vfs.NewSegment transformer_Encode key data ttl w).1 =
  match vfs.Serializable_ToBytes data with
  | Ok bs => is_Ok (transformer_Encode bs)
  | Err _ => false
  end.
Proof.
  unfold vfs.NewSegment. destruct (vfs.stamps ttl w) as [[ts ex] w'].
  destruct (vfs.Serializable_ToBytes data) as [bs|e]; [|reflexivity].
  destruct (transformer_Encode bs); reflexivity.
Qed.

Lemma AcquirePoolSegment_is_Ok pick key data ttl w :
  is_Ok (vfs.AcquirePoolSegment transformer_Encode pick key data ttl w).1 =
  match vfs.Serializable_ToBytes data with
  | Ok bs => is_Ok (transformer_Encode bs)
  | Err _ => false
  end.
Proof.
  unfold vfs.AcquirePoolSegment.
  destruct (pool_Get vfs.new_Segment pick (vfs.segmentPool w)) as [seg p].
  destruct (vfs.stamps ttl _) as [[ts ex] w'].
  destruct (vfs.Serializable_ToBytes data) as [bs|e]; [|reflexivity].
  destruct (transformer_Encode bs); reflexivity.
Qed.

(** C8, as the code has it.  Record construction does not look at the
    key: [NewSegment] and [AcquirePoolSegment] succeed for one key
    exactly when they succeed for any other, and for the key [""] a
    payload that serializes and encodes gets a live record
    ([Tombstone = 0]) with [KeySize = 0] and an empty [Key]. *)
Theorem empty_key_is_not_rejected data ttl pick w bs encodedata :
  vfs.Serializable_ToBytes data = Ok bs ->
  transformer_Encode bs = Ok encodedata ->
  (exists s w1 w2,
     vfs.NewSegment transformer_Encode "" data ttl w = (Ok s, w1) /\
     vfs.AcquirePoolSegment transformer_Encode pick "" data ttl w
       = (Ok s, w2) /\
     vfs.Tombstone s = 0 /\ vfs.KeySize s = 0 /\ vfs.Key s = []) /\
  (forall key,
     is_Ok (vfs.NewSegment transformer_Encode key data ttl w).1 = true /\
     is_Ok (vfs.AcquirePoolSegment transformer_Encode pick key data ttl w).1
       = true).
Proof.
  intros Hb He. split.
  - rewrite (NewSegment_Ok transformer_Encode "" data ttl w bs encodedata Hb He).
    rewrite (AcquirePoolSegment_Ok transformer_Encode pick "" data ttl w
               bs encodedata Hb He).
    do 3 eexists. split; [reflexivity|]. split; [reflexivity|].
    repeat split.
  - intros key. rewrite NewSegment_is_Ok, AcquirePoolSegment_is_Ok.
    rewrite Hb, He. split; reflexivity.
Qed.
End EmptyKey.

Lemma empty_key_is_not_rejected_witness :
  let bs := byte_of_Z 165 :: bytes_of_string "world" in
  vfs.Serializable_ToBytes (H := sample.msgpack) (sample.text "world") = Ok bs /\
  sample.identity_Encode bs = Ok bs /\
  exists s w1 w2,
    vfs.NewSegment (H := sample.msgpack) sample.identity_Encode
      "" (sample.text "world") 0 sample.world = (Ok s, w1) /\
    vfs.AcquirePoolSegment (H := sample.msgpack) sample.identity_Encode
      0 "" (sample.text "world") 0 sample.world = (Ok s, w2) /\
    vfs.Tombstone s = 0 /\ vfs.KeySize s = 0 /\ vfs.Key s = [].
Proof.
  intros bs. split; [reflexivity|]. split; [reflexivity|].
  apply (empty_key_is_not_rejected (H := sample.msgpack)
           sample.identity_Encode (sample.text "world") 0 0%nat sample.world
           bs bs eq_refl eq_refl).
Defined.

(** C8 as stated fails: for the key [""] both constructors return a
    live record with [KeySize = 0], and no error. *)
Lemma empty_key_accepted :
  exists s w1 w2,
    vfs.NewSegment (H := sample.msgpack) sample.identity_Encode
      "" (sample.text "world") 0 sample.world = (Ok s, w1) /\
    vfs.AcquirePoolSegment (H := sample.msgpack) sample.identity_Encode
      0 "" (sample.text "world") 0 sample.world = (Ok s, w2) /\
    len_string "" = 0 /\
    vfs.IsTombstone s = false /\
    vfs.KeySize s = 0.
Proof.
  do 3 eexists. split; [reflexivity|]. split; [reflexivity|]. repeat split.
Qed.

(** ** C9: what releasing to a pool clears *)

(** The six payloads are cleared to what their constructors return. *)
Lemma payload_Clear_is_new :
  (forall s, types.Set_Clear s = types.NewSet) /\
  (forall z, types.ZSet_Clear z = types.NewZSet) /\
  (forall t, types.Text_Clear t = types.NewText "") /\
  (forall t, types.Table_Clear t = types.NewTable) /\
  (forall n, types.Number_Clear n = types.NewNumber 0) /\
  (forall c, types.Collection_Clear c = types.NewCollection).
Proof. repeat split. Qed.

(** [Clear] resets every field of a segment but [Type]. *)
Lemma Segment_Clear_eq (s : vfs.Segment) :
  vfs.Clear s = vfs.set_Type (vfs.Type_ s) vfs.new_Segment.
Proof. reflexivity. Qed.

Lemma released_Segment_comes_back (s : vfs.Segment) (w : vfs.World) :
  (pool_Get vfs.new_Segment 0 (vfs.segmentPool (vfs.ReleaseToPool s w))).1 =
  vfs.set_Type (vfs.Type_ s) vfs.new_Segment.
Proof. reflexivity. Qed.

(** C9 fails on the code.  The segment written for the text "world"
    under the key "hello" is released to the pool and the pool hands it
    out again: its [Type] is still [Text], where a new segment has the
    zero kind, so the value obtained is not a fresh one. *)
Theorem released_Segment_keeps_Kind :
  exists s w1,
    vfs.AcquirePoolSegment (H := sample.msgpack) sample.identity_Encode
      0 "hello" (sample.text "world") 0 sample.world = (Ok s, w1) /\
    let w2 := vfs.ReleaseToPool s w1 in
    let got := (pool_Get vfs.new_Segment 0 (vfs.segmentPool w2)).1 in
    vfs.Type_ (vfs.Clear s) = vfs.Text /\
    vfs.Type_ got = vfs.Text /\
    vfs.Type_ vfs.new_Segment = vfs.Set_ /\
    got <> vfs.new_Segment.
Proof.
  do 2 eexists. split; [reflexivity|].
  cbv zeta. repeat split. discriminate.
Qed.

(** ** The payload pools across calls *)

Lemma pool_fill_Forall {A} (P : A -> Prop) n x (p : list A) :
  P x -> Forall P p -> Forall P (pool_fill n x p).
Proof.
  intros Hx. revert p. induction n as [|n IH]; intros p Hp; cbn.
  - exact Hp.
  - apply IH. constructor; assumption.
Qed.

Lemma pool_Get_Forall {A} (P : A -> Prop) New pick (p : list A) :
  P New -> Forall P p ->
  P (pool_Get New pick p).1 /\ Forall P (pool_Get New pick p).2.
Proof.
  intros HN Hp. unfold pool_Get.
  destruct (p !! pick) as [x|] eqn:Hx; cbn.
  - split.
    + exact (Forall_lookup_1 P p pick x Hp Hx).
    + now apply Forall_delete.
  - split; assumption.
Qed.

Lemma init_holds_new_values : pools_hold_new_values types.init.
Proof.
  unfold pools_hold_new_values. cbn.
  repeat split;
    repeat (constructor;
            [first [reflexivity | left; reflexivity | right; reflexivity] |]);
    constructor.
Qed.

Lemma run_call_holds_new_values c ps :
  pools_hold_new_values ps -> pools_hold_new_values (types.run_call c ps).
Proof.
  intros (Hc & Hn & Hs & Htb & Htx & Hz).
  destruct c; cbn;
    unfold types.AcquireCollection, types.AcquireNumber, types.AcquireSet,
      types.AcquireTable, types.AcquireText, types.AcquireZSet,
      types.Collection_ReleaseToPool, types.Number_ReleaseToPool,
      types.Set_ReleaseToPool, types.Table_ReleaseToPool,
      types.Text_ReleaseToPool, types.ZSet_ReleaseToPool, pool_Put;
    try (match goal with
         | |- context [pool_Get ?New ?pick ?p] =>
             let Hg := fresh "Hg" in
             pose proof (fun P HN HF => proj2 (@pool_Get_Forall _ P New pick p HN HF))
               as Hg;
             destruct (pool_Get New pick p) as [o p']; cbn in Hg |- *
         end);
    unfold pools_hold_new_values; cbn; repeat split;
    try assumption; try (constructor; [reflexivity | assumption]);
    try (constructor; [left; reflexivity | assumption]);
    apply Hg; auto.
Qed.

Lemma run_calls_hold_new_values cs : pools_hold_new_values (types.run_calls cs).
Proof.
  unfold types.run_calls.
  generalize init_holds_new_values. generalize types.init.
  induction cs as [|c cs IH]; intros ps Hps; cbn.
  - exact Hps.
  - apply IH. now apply run_call_holds_new_values.
Qed.

(** Whatever calls came before, [AcquireText] returns a new [Text], and
    likewise for the other payloads whose pool is their own;
    [AcquireZSet] returns a new [ZSet] or panics. *)
Lemma acquired_payload_is_new cs pick :
  let ps := types.run_calls cs in
  (types.AcquireCollection pick ps).1 = Returned types.NewCollection /\
  (types.AcquireNumber pick ps).1 = Returned (types.NewNumber 0) /\
  (types.AcquireSet pick ps).1 = Returned types.NewSet /\
  (types.AcquireTable pick ps).1 = Returned types.NewTable /\
  (types.AcquireText pick ps).1 = Returned (types.NewText "") /\
  ((types.AcquireZSet pick ps).1 = Returned types.NewZSet \/
   (types.AcquireZSet pick ps).1 =
     Panicked "interface conversion: interface {} is not *types.ZSet").
Proof.
  intros ps.
  destruct (run_calls_hold_new_values cs) as (Hc & Hn & Hs & Htb & Htx & Hz).
  fold ps in Hc, Hn, Hs, Htb, Htx, Hz.
  unfold types.AcquireCollection, types.AcquireNumber, types.AcquireSet,
    types.AcquireTable, types.AcquireText, types.AcquireZSet.
  repeat split.
  - pose proof (proj1 (pool_Get_Forall _ _ pick _ eq_refl Hc)) as Hg.
    destruct (pool_Get _ pick (types.collectionPools ps)) as [o p].
    cbn in *. now subst o.
  - pose proof (proj1 (pool_Get_Forall _ _ pick _ eq_refl Hn)) as Hg.
    destruct (pool_Get _ pick (types.numberPools ps)) as [o p].
    cbn in *. now subst o.
  - pose proof (proj1 (pool_Get_Forall _ _ pick _ eq_refl Hs)) as Hg.
    destruct (pool_Get _ pick (types.setPools ps)) as [o p].
    cbn in *. now subst o.
  - pose proof (proj1 (pool_Get_Forall _ _ pick _ eq_refl Htb)) as Hg.
    destruct (pool_Get _ pick (types.tablePools ps)) as [o p].
    cbn in *. now subst o.
  - pose proof (proj1 (pool_Get_Forall _ _ pick _ eq_refl Htx)) as Hg.
    destruct (pool_Get _ pick (types.textPools ps)) as [o p].
    cbn in *. now subst o.
  - pose proof (proj1 (pool_Get_Forall _ _ pick _ (or_introl eq_refl) Hz)) as Hg.
    destruct (pool_Get _ pick (types.zsetPools ps)) as [o p].
    cbn in *. destruct Hg as [-> | ->]; [left | right]; reflexivity.
Qed.

(** ** C10: what the zset pool holds *)

Lemma zsetPools_after_init :
  types.zsetPools types.init =
  repeat (types.PtrZSet types.NewZSet) 10 ++ repeat (types.PtrSet types.NewSet) 10.
Proof. reflexivity. Qed.

Lemma setPools_after_init : types.setPools types.init = [].
Proof. reflexivity. Qed.

(** C10 fails on the code.  After package initialisation the zset
    pool holds the ten [*Set] values that the [init] next to [Set] put
    there; when [Get] hands one of them out, the type assertion of
    [AcquireZSet] panics. *)
Theorem AcquireZSet_panics_after_init :
  types.zsetPools types.init !! 10%nat = Some (types.PtrSet types.NewSet) /\
  (types.AcquireZSet 10 types.init).1 =
  Panicked "interface conversion: interface {} is not *types.ZSet".
Proof. split; reflexivity. Qed.

(** * Further properties of the payload types *)

(** ** [Number] *)

Lemma int64_add_l a b : int64 (int64 a + b) = int64 (a + b).
Proof.
  unfold int64. f_equal.
  replace ((a + 2^63) mod 2^64 - 2^63 + b + 2^63)
    with ((a + 2^63) mod 2^64 + b) by lia.
  rewrite Zplus_mod_idemp_l. f_equal. lia.
Qed.

Lemma int64_add_r a b : int64 (a + int64 b) = int64 (a + b).
Proof. rewrite (Z.add_comm a), int64_add_l. f_equal. lia. Qed.

(** X1. The atomic additions of [Number] compose modulo [2^64]: adding
    [a] and then [b] is adding [a + b], and [Sub delta] undoes
    [Add delta] for every delta, also when the sum wraps around, giving
    back the value and the number as they were. *)
Theorem Number_Add_Sub (num : types.Number) (a b delta : Z) :
  - 2^63 <= types.Value num < 2^63 ->
  types.Number_Add b (types.Number_Add a num).2 = types.Number_Add (a + b) num /\
  types.Number_Sub delta (types.Number_Add delta num).2 = (types.Value num, num) /\
  types.Number_Decrement (types.Number_Increment num).2 = (types.Value num, num).
Proof.
  intros Hv.
  assert (Hsub : forall d,
    types.Number_Sub d (types.Number_Add d num).2 = (types.Value num, num)).
  { intros d.
    unfold types.Number_Sub, types.Number_Add, types.atomic_AddInt64. cbn.
    rewrite int64_add_r, int64_add_l.
    replace (types.Value num + d + - d) with (types.Value num) by lia.
    rewrite int64_small by exact Hv. destruct num; reflexivity. }
  split; [|split].
  - unfold types.Number_Add, types.atomic_AddInt64. cbn.
    rewrite int64_add_l, Z.add_assoc. reflexivity.
  - apply Hsub.
  - apply Hsub.
Qed.

Lemma Number_Add_Sub_witness :
  let num := types.NewNumber 9223372036854775807 in
  - 2^63 <= types.Value num < 2^63 /\
  (types.Number_Add 5 num).1 = -9223372036854775804 /\
  types.Number_Sub 5 (types.Number_Add 5 num).2 = (9223372036854775807, num).
Proof.
  intros num.
  assert (Hv : - 2^63 <= types.Value num < 2^63) by (cbn; lia).
  split; [exact Hv|]. split; [reflexivity|].
  exact (proj1 (proj2 (Number_Add_Sub num 0 0 5 Hv))).
Defined.

(** ** [Text] *)

Lemma length_string_append a b :
  String.length (String.append a b) = (String.length a + String.length b)%nat.
Proof.
  induction a as [|c a IH]; [reflexivity|].
  change (S (String.length (String.append a b)) =
          S (String.length a + String.length b)).
  now rewrite IH.
Qed.

(** X3. [Append] grows the [Size] of a text by the length of what is
    appended and leaves the TTL alone; two appends are one append of the
    concatenation; a [Clone] [Equals] its original and has its TTL. *)
Theorem Text_Append_Size (t : types.Text) (a b : string) :
  types.Text_Size (types.Text_Append a t) = types.Text_Size t + len_string a /\
  types.Text_TTL (types.Text_Append a t) = types.Text_TTL t /\
  types.Text_Append b (types.Text_Append a t)
    = types.Text_Append (String.append a b) t /\
  types.Text_Equals (types.Text_Clone t) t = true /\
  types.Text_Clone t = t.
Proof.
  unfold types.Text_Size, types.Text_Append, types.Text_Equals,
    types.Text_Clone, len_string.
  cbn [types.Content types.Text_TTL].
  repeat split.
  - rewrite length_string_append. lia.
  - f_equal. induction (types.Content t) as [|c s IH]; [reflexivity|].
    change (String c (String.append (String.append s a) b) =
            String c (String.append s (String.append a b))).
    now rewrite IH.
  - apply String.eqb_refl.
  - destruct t; reflexivity.
Qed.

(** ** [Set] *)

Lemma Set_run_from ops : forall (s : types.Set_) (X : gset string),
  types.Set_Set s = gset_to_gmap true X ->
  types.Set_Set (fold_left types.Set_apply ops s) =
  gset_to_gmap true
    (fold_left (fun X o => match o with
                           | types.SAdd v => {[v]} ∪ X
                           | types.SRemove v => X ∖ {[v]}
                           end) ops X).
Proof.
  induction ops as [|o ops IH]; intros s X Hs; cbn.
  - exact Hs.
  - apply IH. destruct o as [v|v]; cbn; rewrite Hs.
    + now rewrite gset_to_gmap_union_singleton.
    + now rewrite gset_to_gmap_difference_singleton.
Qed.

(** X4. A [Set] built from [NewSet] by any sequence of [Add] and
    [Remove] is the mathematical set of that sequence: [Contains]
    answers membership and [Size] is the number of members. *)
Theorem Set_is_set_of_ops (ops : list types.Set_op) (v : string) :
  types.Set_Contains v (types.Set_run ops) = bool_decide (v ∈ set_of_ops ops) /\
  types.Set_Size (types.Set_run ops) = Z.of_nat (size (set_of_ops ops)).
Proof.
  pose proof (Set_run_from ops types.NewSet ∅ (eq_sym (gset_to_gmap_empty true)))
    as Hm.
  fold (types.Set_run ops) in Hm. fold (set_of_ops ops) in Hm.
  unfold types.Set_Contains, types.Set_Size. rewrite Hm. split.
  - rewrite lookup_gset_to_gmap.
    destruct (decide (v ∈ set_of_ops ops)) as [Hin|Hnin].
    + rewrite option_guard_True by exact Hin.
      now rewrite bool_decide_eq_true_2.
    + rewrite option_guard_False by exact Hnin.
      now rewrite bool_decide_eq_false_2.
  - f_equal. rewrite <- size_dom. now rewrite dom_gset_to_gmap.
Qed.

(** X5. [Contains] reads the stored flag, not the presence of the key:
    a member stored with [false], as a decoded document may have it, is
    counted by [Size] and denied by [Contains]. *)
Theorem Set_Contains_reads_flag (s : types.Set_) (v : string) :
  types.Set_Set s !! v = Some false ->
  types.Set_Contains v s = false /\ 1 <= types.Set_Size s.
Proof.
  intros Hv. unfold types.Set_Contains, types.Set_Size. rewrite Hv.
  split; [reflexivity|].
  assert (size (types.Set_Set s) <> 0%nat); [|lia].
  intros Hz. apply map_size_empty_iff in Hz. rewrite Hz in Hv.
  now rewrite lookup_empty in Hv.
Qed.

Lemma Set_Contains_reads_flag_witness :
  let s := {| types.Set_Set := {["a" := false]}; types.Set_TTL := 0 |} in
  types.Set_Set s !! "a" = Some false /\
  types.Set_Contains "a" s = false /\ 1 <= types.Set_Size s.
Proof.
  intros s.
  assert (Hv : types.Set_Set s !! "a" = Some false) by reflexivity.
  split; [exact Hv | exact (Set_Contains_reads_flag s "a" Hv)].
Defined.

(** ** [Collection] *)

(** X6. [GetItem] returns the element at an index from [0] up to
    [Size - 1] and the out-of-bounds error at every other index, a
    negative one and [Size] itself included. *)
Theorem Collection_GetItem_bounds (c : types.Collection) (i : Z) :
  (0 <= i < types.Collection_Size c ->
   exists x, types.Collection_Collection c !! Z.to_nat i = Some x /\
             types.Collection_GetItem i c = Ok x) /\
  (i < 0 \/ types.Collection_Size c <= i ->
   types.Collection_GetItem i c = Err "collection index out of bounds").
Proof.
  unfold types.Collection_GetItem, types.Collection_Size. split.
  - intros Hi.
    destruct (Z.ltb_spec i 0); [lia|].
    destruct (Z.geb_spec i (Z.of_nat (List.length (types.Collection_Collection c))));
      [lia|]. cbn.
    destruct (lookup_lt_is_Some_2 (types.Collection_Collection c) (Z.to_nat i))
      as [x Hx]; [lia|].
    exists x. now rewrite Hx.
  - intros Hi.
    destruct (Z.ltb_spec i 0); [reflexivity|].
    destruct (Z.geb_spec i (Z.of_nat (List.length (types.Collection_Collection c))));
      [reflexivity | lia].
Qed.

Lemma Collection_GetItem_bounds_witness :
  let c := types.Collection_AddItem (types.AnyString "test item")
             types.NewCollection in
  0 <= 0 < types.Collection_Size c /\
  types.Collection_GetItem 0 c = Ok (types.AnyString "test item") /\
  types.Collection_GetItem 1 c = Err "collection index out of bounds".
Proof.
  intros c.
  assert (H0 : 0 <= 0 < types.Collection_Size c)
    by (split; [lia | reflexivity]).
  split; [exact H0|]. split.
  - destruct (proj1 (Collection_GetItem_bounds c 0) H0) as (x & Hx & ->).
    unfold c in Hx. vm_compute in Hx. congruence.
  - apply (proj2 (Collection_GetItem_bounds c 1)). right.
    vm_compute. discriminate.
Defined.

Lemma Rnage_loop_slice statIndex endIndex (l : list types.any) : forall i,
  types.Rnage_loop statIndex endIndex i l =
  take (Z.to_nat (endIndex + 1 - Z.max statIndex i))
    (drop (Z.to_nat (statIndex - i)) l).
Proof.
  induction l as [|v rest IH]; intros i.
  - cbn. now rewrite drop_nil, take_nil.
  - cbn [types.Rnage_loop]. rewrite IH.
    destruct (Z.geb_spec i statIndex) as [Hge|Hlt].
    + replace (Z.to_nat (statIndex - i)) with 0%nat by lia.
      replace (Z.to_nat (statIndex - (i + 1))) with 0%nat by lia.
      rewrite !drop_0.
      destruct (Z.leb_spec i endIndex) as [Hle|Hgt]; cbn [andb].
      * replace (Z.to_nat (endIndex + 1 - Z.max statIndex i))
          with (S (Z.to_nat (endIndex + 1 - Z.max statIndex (i + 1)))) by lia.
        reflexivity.
      * replace (Z.to_nat (endIndex + 1 - Z.max statIndex i)) with 0%nat by lia.
        replace (Z.to_nat (endIndex + 1 - Z.max statIndex (i + 1)))
          with 0%nat by lia.
        reflexivity.
    + cbn [andb].
      replace (Z.to_nat (statIndex - i))
        with (S (Z.to_nat (statIndex - (i + 1)))) by lia.
      replace (Z.max statIndex (i + 1)) with (Z.max statIndex i) by lia.
      reflexivity.
Qed.

(** X7. [Rnage] never fails and returns the slice of the collection
    between the two indexes, both included: the elements from
    [max statIndex 0] up to [endIndex], as many as the collection has;
    nothing when [endIndex] is below [statIndex]. *)
Theorem Collection_Rnage_is_slice (c : types.Collection) (statIndex endIndex : Z) :
  types.Collection_Rnage statIndex endIndex c =
  Ok (take (Z.to_nat (endIndex + 1 - Z.max statIndex 0))
        (drop (Z.to_nat statIndex) (types.Collection_Collection c))) /\
  (endIndex < statIndex -> types.Collection_Rnage statIndex endIndex c = Ok []) /\
  (0 <= statIndex <= endIndex -> endIndex < types.Collection_Size c ->
   exists l, types.Collection_Rnage statIndex endIndex c = Ok l /\
             Z.of_nat (List.length l) = endIndex - statIndex + 1).
Proof.
  unfold types.Collection_Rnage, types.Collection_Size.
  rewrite Rnage_loop_slice, Z.sub_0_r.
  split; [reflexivity|]. split.
  - intros Hlt.
    replace (Z.to_nat (endIndex + 1 - Z.max statIndex 0)) with 0%nat by lia.
    reflexivity.
  - intros Hs He. eexists. split; [reflexivity|].
    rewrite length_take, length_drop. lia.
Qed.

Lemma Collection_Rnage_is_slice_witness :
  let item n := types.AnyString n in
  let c := types.Collection_AddItem (item "item 3")
             (types.Collection_AddItem (item "item 2")
                (types.Collection_AddItem (item "item 1") types.NewCollection)) in
  types.Collection_Rnage 0 1 c = Ok [item "item 1"; item "item 2"] /\
  types.Collection_Rnage 2 5 c = Ok [item "item 3"] /\
  types.Collection_Rnage 2 1 c = Ok [].
Proof.
  intros item c.
  split; [|split].
  - rewrite (proj1 (Collection_Rnage_is_slice c 0 1)). reflexivity.
  - rewrite (proj1 (Collection_Rnage_is_slice c 2 5)). reflexivity.
  - apply (proj1 (proj2 (Collection_Rnage_is_slice c 2 1))). lia.
Defined.

Ltac case_bounds :=
  repeat match goal with
         | |- context [?a <? ?b] => destruct (Z.ltb_spec a b)
         | |- context [?a >=? ?b] => destruct (Z.geb_spec a b)
         end.

(** X8. [LPush] puts the item at index [0] and moves every element one
    index up; [RPush] (and [AddItem], which is the same) puts it at
    index [Size] and leaves every element where it is; both grow [Size]
    by one. *)
Theorem Collection_push_GetItem (c : types.Collection) (x : types.any) (i : Z) :
  types.Collection_GetItem 0 (types.Collection_LPush x c) = Ok x /\
  (0 <= i ->
   types.Collection_GetItem (i + 1) (types.Collection_LPush x c)
   = types.Collection_GetItem i c) /\
  types.Collection_GetItem (types.Collection_Size c) (types.Collection_RPush x c)
    = Ok x /\
  (i < types.Collection_Size c ->
   types.Collection_GetItem i (types.Collection_RPush x c)
   = types.Collection_GetItem i c) /\
  types.Collection_Size (types.Collection_LPush x c) = types.Collection_Size c + 1 /\
  types.Collection_Size (types.Collection_RPush x c) = types.Collection_Size c + 1 /\
  types.Collection_AddItem x c = types.Collection_RPush x c.
Proof.
  unfold types.Collection_GetItem, types.Collection_Size,
    types.Collection_LPush, types.Collection_RPush, types.Collection_AddItem.
  cbn [types.Collection_Collection].
  set (l := types.Collection_Collection c).
  rewrite !length_app. cbn [List.length app].
  split; [|split; [|split; [|split; [|split; [|split; [|reflexivity]]]]]].
  - case_bounds; cbn [orb]; try reflexivity; lia.
  - intros Hi. case_bounds; cbn [orb]; try reflexivity; try lia.
    replace (Z.to_nat (i + 1)) with (S (Z.to_nat i)) by lia. reflexivity.
  - case_bounds; cbn [orb]; try lia.
    rewrite Nat2Z.id, lookup_app_r by lia.
    now rewrite Nat.sub_diag.
  - intros Hi. case_bounds; cbn [orb]; try reflexivity; try lia.
    rewrite lookup_app_l by lia. reflexivity.
  - lia.
  - lia.
Qed.

Lemma Collection_push_GetItem_witness :
  let c := types.Collection_AddItem (types.AnyString "item 1")
             types.NewCollection in
  0 <= 0 /\ 0 < types.Collection_Size c /\
  types.Collection_GetItem 1 (types.Collection_LPush (types.AnyString "new item") c)
    = Ok (types.AnyString "item 1") /\
  types.Collection_GetItem 0 (types.Collection_RPush (types.AnyString "new item") c)
    = Ok (types.AnyString "item 1").
Proof.
  intros c.
  pose proof (Collection_push_GetItem c (types.AnyString "new item") 0)
    as (_ & Hl & _ & Hr & _).
  assert (H0 : 0 <= 0) by lia.
  assert (H1 : 0 < types.Collection_Size c) by reflexivity.
  split; [exact H0|]. split; [exact H1|]. split.
  - etransitivity; [exact (Hl H0) | reflexivity].
  - etransitivity; [exact (Hr H1) | reflexivity].
Defined.

Section CollectionRemoveFacts.
Variable interface_eq : types.any -> types.any -> outcome bool.

Lemma Remove_loop_spec item (l : list types.any) : forall before,
  match types.Remove_loop interface_eq item before l with
  | Returned (Some l') =>
      exists l1 x l2,
        l = l1 ++ x :: l2 /\ l' = before ++ l1 ++ l2 /\
        interface_eq x item = Returned true /\
        Forall (fun y => interface_eq y item = Returned false) l1
  | Returned None =>
      Forall (fun y => interface_eq y item = Returned false) l
  | Panicked msg =>
      exists l1 x l2,
        l = l1 ++ x :: l2 /\ interface_eq x item = Panicked msg /\
        Forall (fun y => interface_eq y item = Returned false) l1
  end.
Proof.
  induction l as [|v rest IH]; intros before; cbn.
  - constructor.
  - destruct (interface_eq v item) as [[|]|msg] eqn:Hv.
    + exists [], v, rest. cbn. repeat split; [assumption | constructor].
    + specialize (IH (before ++ [v])).
      destruct (types.Remove_loop interface_eq item (before ++ [v]) rest)
        as [[l'|]|msg].
      * destruct IH as (l1 & x & l2 & -> & -> & Hx & Hl1).
        exists (v :: l1), x, l2. rewrite <- List.app_assoc. cbn.
        repeat split; [assumption | now constructor].
      * now constructor.
      * destruct IH as (l1 & x & l2 & -> & Hx & Hl1).
        exists (v :: l1), x, l2. cbn. repeat split; [assumption | now constructor].
    + exists [], v, rest. cbn. repeat split; [assumption | constructor].
Qed.

(** X9. [Remove] cuts out the first element that compares equal to the
    item and only that one, reporting no error; when no element compares
    equal it reports "collection item not found" and leaves the
    collection as it is; it panics exactly when the comparison panics
    at an element before any equal one. *)
Theorem Collection_Remove_first_equal (c : types.Collection) (item : types.any) :
  match types.Collection_Remove interface_eq item c with
  | Returned (None, c') =>
      exists l1 x l2,
        types.Collection_Collection c = l1 ++ x :: l2 /\
        types.Collection_Collection c' = l1 ++ l2 /\
        types.Collection_TTL c' = types.Collection_TTL c /\
        interface_eq x item = Returned true /\
        Forall (fun y => interface_eq y item = Returned false) l1
  | Returned (Some e, c') =>
      e = "collection item not found" /\ c' = c /\
      Forall (fun y => interface_eq y item = Returned false)
        (types.Collection_Collection c)
  | Panicked msg =>
      exists l1 x l2,
        types.Collection_Collection c = l1 ++ x :: l2 /\
        interface_eq x item = Panicked msg /\
        Forall (fun y => interface_eq y item = Returned false) l1
  end.
Proof.
  unfold types.Collection_Remove.
  pose proof (Remove_loop_spec item (types.Collection_Collection c) []) as Hl.
  destruct (types.Remove_loop interface_eq item [] (types.Collection_Collection c))
    as [[l'|]|msg]; cbn.
  - destruct Hl as (l1 & x & l2 & Hc & -> & Hx & Hl1).
    exists l1, x, l2. cbn. repeat split; assumption.
  - repeat split. exact Hl.
  - exact Hl.
Qed.
End CollectionRemoveFacts.

(** ** [ZSet] *)

Lemma remove_first_elem_of (x v : string) (l : list string) :
  NoDup l -> v ∈ types.remove_first x l <-> v ∈ l /\ v <> x.
Proof.
  induction l as [|y rest IH]; intros Hnd; cbn.
  - rewrite elem_of_nil. tauto.
  - apply NoDup_cons in Hnd as [Hy Hrest].
    destruct (String.eqb_spec y x) as [-> | Hne].
    + rewrite elem_of_cons. split.
      * intros Hv. split; [now right|]. intros ->. contradiction.
      * intros [[-> | Hv] Hvx]; [contradiction | exact Hv].
    + rewrite !elem_of_cons, (IH Hrest). split.
      * intros [-> | [Hv Hvx]]; [split; [now left | exact Hne] | split; [now right | exact Hvx]].
      * intros [[-> | Hv] Hvx]; [now left | right; now split].
Qed.

Lemma remove_first_NoDup (x : string) (l : list string) :
  NoDup l -> NoDup (types.remove_first x l).
Proof.
  induction l as [|y rest IH]; intros Hnd; cbn.
  - exact Hnd.
  - pose proof Hnd as Hnd'. apply NoDup_cons in Hnd' as [Hy Hrest].
    destruct (String.eqb_spec y x) as [-> | Hne]; [exact Hrest|].
    apply NoDup_cons. split; [|now apply IH].
    rewrite (remove_first_elem_of x y rest Hrest). tauto.
Qed.

Lemma rank_loop_spec (v : string) (l : list string) : forall i,
  let r := types.rank_loop v i l in
  (r.2 = true <-> v ∈ l) /\
  (r.2 = true ->
   i <= r.1 < i + Z.of_nat (List.length l) /\ l !! Z.to_nat (r.1 - i) = Some v) /\
  (r.2 = false -> r.1 = -1).
Proof.
  induction l as [|y rest IH]; intros i; cbn.
  - rewrite elem_of_nil. repeat split; try discriminate; try tauto.
  - destruct (String.eqb_spec y v) as [-> | Hne]; cbn.
    + rewrite elem_of_cons. repeat split; try tauto; try lia; try discriminate.
      now rewrite Z.sub_diag.
    + destruct (IH (i + 1)) as (Hin & Hfound & Hmiss).
      rewrite elem_of_cons. split; [|split].
      * rewrite Hin. split; [tauto|]. intros [-> | H]; [contradiction | exact H].
      * intros Ht. destruct (Hfound Ht) as [Hr Hl]. split; [lia|].
        replace (Z.to_nat ((types.rank_loop v (i + 1) rest).1 - i))
          with (S (Z.to_nat ((types.rank_loop v (i + 1) rest).1 - (i + 1))))
          by lia.
        exact Hl.
      * exact Hmiss.
Qed.

Lemma range_loop_elem_of (z : types.ZSet) lo hi (v : string) (l : list string) :
  v ∈ types.range_loop z lo hi l <->
  v ∈ l /\ exists score, types.ZSet_ZSet z !! v = Some score /\
                         PrimFloat.leb lo score = true /\
                         PrimFloat.leb score hi = true.
Proof.
  induction l as [|y rest IH]; cbn.
  - rewrite elem_of_nil. tauto.
  - destruct (types.ZSet_ZSet z !! y) as [sc|] eqn:Hy.
    + destruct (PrimFloat.leb lo sc) eqn:Hlo;
        destruct (PrimFloat.leb sc hi) eqn:Hhi; cbn [andb];
        rewrite ?elem_of_cons, IH; split;
        try (intros [-> | [Hv Hs]]; [split; [now left | eauto] | split; [now right | exact Hs]]);
        try (intros [Hv Hs]; split; [now right | exact Hs]);
        try (intros [[-> | Hv] Hs]; [now left | right; now split]);
        intros [[-> | Hv] (score & Hs & H1 & H2)];
        try (split; [exact Hv | eauto]);
        rewrite Hy in Hs; injection Hs as <-; congruence.
    + rewrite IH, elem_of_cons. split.
      * intros [Hv Hs]. split; [now right | exact Hs].
      * intros [[-> | Hv] (score & Hs & H1 & H2)]; [congruence|].
        split; [exact Hv | eauto].
Qed.

Section ZSetFacts.
Variable sort_Slice : (string -> string -> bool) -> list string -> list string.
Hypothesis sort_Slice_permutes : forall less l, sort_Slice less l ≡ₚ l.

Lemma ZSet_sort_lists_members z :
  lists_members z -> lists_members (types.ZSet_sort sort_Slice z).
Proof.
  intros [Hnd Hmem]. unfold lists_members, types.ZSet_sort; cbn.
  split.
  - now rewrite sort_Slice_permutes.
  - intros v. now rewrite sort_Slice_permutes.
Qed.

Lemma ZSet_Remove_lists_members value z :
  lists_members z -> lists_members (types.ZSet_Remove sort_Slice value z).
Proof.
  intros [Hnd Hmem]. unfold types.ZSet_Remove.
  apply ZSet_sort_lists_members.
  destruct (types.ZSet_ZSet z !! value) as [sc|] eqn:Hv; [|now split].
  split; cbn.
  - now apply remove_first_NoDup.
  - intros v. rewrite (remove_first_elem_of value v _ Hnd), Hmem.
    destruct (decide (v = value)) as [-> | Hne].
    + rewrite lookup_delete_eq. split; [tauto|]. intros [? ?]. discriminate.
    + rewrite lookup_delete_ne by congruence. tauto.
Qed.

Lemma ZSet_Remove_lookup value z :
  types.ZSet_ZSet (types.ZSet_Remove sort_Slice value z) =
  delete value (types.ZSet_ZSet z).
Proof.
  unfold types.ZSet_Remove.
  destruct (types.ZSet_ZSet z !! value) as [sc|] eqn:Hv; cbn; [reflexivity|].
  now rewrite delete_id.
Qed.

Lemma ZSet_Add_lists_members value score z :
  lists_members z -> lists_members (types.ZSet_Add sort_Slice value score z).
Proof.
  intros Hz. unfold types.ZSet_Add.
  apply ZSet_sort_lists_members.
  set (z1 := match types.ZSet_ZSet z !! value with
             | Some _ => types.ZSet_Remove sort_Slice value z
             | None => z
             end).
  assert (H1 : lists_members z1 /\ types.ZSet_ZSet z1 !! value = None).
  { subst z1. destruct (types.ZSet_ZSet z !! value) eqn:Hv.
    - split; [now apply ZSet_Remove_lists_members|].
      rewrite ZSet_Remove_lookup. apply lookup_delete_eq.
    - now split. }
  destruct H1 as [[Hnd Hmem] Hfresh]. split; cbn.
  - apply NoDup_app. split; [exact Hnd|]. split; [|apply NoDup_singleton].
    intros x Hx Hxv. apply list_elem_of_singleton in Hxv as ->.
    apply Hmem in Hx. rewrite Hfresh in Hx. now destruct Hx.
  - intros v. rewrite elem_of_app, list_elem_of_singleton, Hmem.
    destruct (decide (v = value)) as [-> | Hne].
    + rewrite lookup_insert_eq. split; [eauto | tauto].
    + rewrite lookup_insert_ne by congruence. tauto.
Qed.

Lemma ZSet_run_lists_members ops :
  lists_members (types.ZSet_run sort_Slice ops).
Proof.
  unfold types.ZSet_run.
  assert (H0 : lists_members types.NewZSet).
  { split; cbn; [constructor|]. intros v.
    rewrite elem_of_nil, lookup_empty. split; [tauto | intros [? ?]; discriminate]. }
  revert H0. generalize types.NewZSet.
  induction ops as [|o ops IH]; intros z Hz; cbn; [exact Hz|].
  apply IH. destruct o; cbn.
  - now apply ZSet_Add_lists_members.
  - now apply ZSet_Remove_lists_members.
Qed.

Lemma lists_members_length z :
  lists_members z ->
  Z.of_nat (List.length (types.sortedScores z)) = types.ZSet_Size z.
Proof.
  intros [Hnd Hmem]. unfold types.ZSet_Size. f_equal.
  rewrite <- size_dom. unfold size, set_size; cbn.
  apply Permutation_length, NoDup_Permutation;
    [exact Hnd | apply NoDup_elements|].
  intros v. now rewrite Hmem, elem_of_elements, elem_of_dom.
Qed.

(** X10. However a [ZSet] is built from [NewZSet] by [Add] and
    [Remove], its rank list names every member exactly once and nothing
    else, so it is as long as [Size]; a value added twice is listed
    once. *)
Theorem ZSet_rank_list_lists_members (ops : list types.ZSet_op) :
  let z := types.ZSet_run sort_Slice ops in
  NoDup (types.sortedScores z) /\
  (forall v, v ∈ types.sortedScores z <-> (types.ZSet_Get v z).2 = true) /\
  Z.of_nat (List.length (types.sortedScores z)) = types.ZSet_Size z.
Proof.
  intros z. pose proof (ZSet_run_lists_members ops) as Hz. fold z in Hz.
  split; [exact (proj1 Hz)|]. split.
  - intros v. rewrite (proj2 Hz v). unfold types.ZSet_Get.
    destruct (types.ZSet_ZSet z !! v); cbn; split; eauto; try discriminate.
    intros [? ?]; discriminate.
  - now apply lists_members_length.
Qed.

(** X11. On a [ZSet] built by [Add] and [Remove], [GetRank] finds a
    value exactly when it is a member; the rank of a member is an index
    from [0] up to [Size - 1] at which the rank list holds that value,
    and a value that is no member gets the rank [-1]. *)
Theorem ZSet_GetRank_finds_members (ops : list types.ZSet_op) (v : string) :
  let z := types.ZSet_run sort_Slice ops in
  let r := types.ZSet_GetRank sort_Slice v z in
  (r.1.2 = true <-> (types.ZSet_Get v z).2 = true) /\
  (r.1.2 = true ->
   0 <= r.1.1 < types.ZSet_Size z /\
   types.sortedScores r.2 !! Z.to_nat r.1.1 = Some v) /\
  (r.1.2 = false -> r.1.1 = -1).
Proof.
  intros z r.
  pose proof (ZSet_run_lists_members ops) as Hz. fold z in Hz.
  pose proof (ZSet_sort_lists_members z Hz) as Hs.
  pose proof (lists_members_length _ Hs) as Hlen.
  subst r. unfold types.ZSet_GetRank. cbn [fst snd].
  destruct (rank_loop_spec v
              (types.sortedScores (types.ZSet_sort sort_Slice z)) 0)
    as (Hin & Hfound & Hmiss).
  cbv zeta in Hin, Hfound, Hmiss.
  split; [|split].
  - rewrite Hin, (proj2 Hs v). cbn. unfold types.ZSet_Get.
    destruct (types.ZSet_ZSet z !! v); cbn; split; eauto; try discriminate.
    intros [? ?]; discriminate.
  - intros Ht. destruct (Hfound Ht) as [Hr Hl].
    rewrite Z.sub_0_r in Hl. split; [|exact Hl].
    change (types.ZSet_Size z)
      with (types.ZSet_Size (types.ZSet_sort sort_Slice z)).
    lia.
  - exact Hmiss.
Qed.

(** X12. On a [ZSet] built by [Add] and [Remove], [GetRange] returns,
    each once, exactly the members whose score lies between the two
    bounds, both included. *)
Theorem ZSet_GetRange_in_bounds (ops : list types.ZSet_op)
    (minScore maxScore : float) (v : string) :
  let z := types.ZSet_run sort_Slice ops in
  (v ∈ (types.ZSet_GetRange sort_Slice minScore maxScore z).1 <->
   exists score, types.ZSet_ZSet z !! v = Some score /\
                 PrimFloat.leb minScore score = true /\
                 PrimFloat.leb score maxScore = true).
Proof.
  intros z.
  pose proof (ZSet_run_lists_members ops) as Hz. fold z in Hz.
  pose proof (ZSet_sort_lists_members z Hz) as [_ Hs].
  unfold types.ZSet_GetRange. cbn [fst].
  rewrite range_loop_elem_of. cbn [types.ZSet_ZSet types.ZSet_sort] in *.
  split.
  - intros [_ H]. exact H.
  - intros (score & Hv & H1 & H2). split; [|eauto].
    apply Hs. eauto.
Qed.

(** X13. A [ZSet] that comes out of [ToZSet] has an empty rank list:
    [GetRank] finds none of its members and [GetRange] returns nothing,
    whatever the decoded map holds. *)
Theorem decoded_ZSet_has_no_ranks `{types.Msgpack} (s : vfs.Segment)
    (z : types.ZSet) (v : string) (minScore maxScore : float) :
  vfs.ToZSet s = Ok z ->
  (types.ZSet_GetRank sort_Slice v z).1 = (-1, false) /\
  (types.ZSet_GetRange sort_Slice minScore maxScore z).1 = [] /\
  types.Unmarshal_zset (vfs.Value s) = Ok (types.ZSet_ZSet z).
Proof.
  unfold vfs.ToZSet. intros Hz.
  destruct (negb (vfs.Type_ s =? vfs.ZSet)); [discriminate|].
  destruct (types.Unmarshal_zset (vfs.Value s)) as [m|e]; [|discriminate].
  injection Hz as <-.
  unfold types.ZSet_GetRank, types.ZSet_GetRange, types.ZSet_sort. cbn.
  pose proof (sort_Slice_permutes
    (fun a b => PrimFloat.ltb
       (types.ZSet_score {| types.ZSet_ZSet := m; types.ZSet_TTL := 0;
                            types.sortedScores := [] |} b)
       (types.ZSet_score {| types.ZSet_ZSet := m; types.ZSet_TTL := 0;
                            types.sortedScores := [] |} a)) []) as Hp.
  apply Permutation_nil_r in Hp. rewrite Hp. cbn. repeat split.
Qed.
End ZSetFacts.

Lemma insert_sorted_permutes less x l :
  sample.insert_sorted less x l ≡ₚ x :: l.
Proof.
  induction l as [|y rest IH]; cbn; [reflexivity|].
  destruct (less y x); [|reflexivity].
  rewrite IH. apply Permutation_swap.
Qed.

Lemma insertion_sort_permutes less l : sample.insertion_sort less l ≡ₚ l.
Proof.
  induction l as [|x rest IH]; cbn; [reflexivity|].
  now rewrite insert_sorted_permutes, IH.
Qed.

Lemma ZSet_rank_list_lists_members_witness :
  let ops := [types.ZAdd "user1" 1%float; types.ZAdd "user2" 2%float;
              types.ZAdd "user1" 3%float; types.ZRemove "user2"] in
  let z := types.ZSet_run sample.insertion_sort ops in
  (forall less l, sample.insertion_sort less l ≡ₚ l) /\
  types.sortedScores z = ["user1"] /\
  NoDup (types.sortedScores z) /\
  Z.of_nat (List.length (types.sortedScores z)) = types.ZSet_Size z.
Proof.
  intros ops z.
  pose proof (ZSet_rank_list_lists_members sample.insertion_sort
                insertion_sort_permutes ops) as (Hnd & _ & Hlen).
  split; [exact insertion_sort_permutes|]. split; [reflexivity|].
  split; [exact Hnd | exact Hlen].
Defined.

Lemma ZSet_GetRank_finds_members_witness :
  let ops := [types.ZAdd "user1" 1%float; types.ZAdd "user2" 2%float] in
  let z := types.ZSet_run sample.insertion_sort ops in
  (forall less l, sample.insertion_sort less l ≡ₚ l) /\
  (types.ZSet_GetRank sample.insertion_sort "user1" z).1 = (1, true) /\
  (types.ZSet_GetRank sample.insertion_sort "user3" z).1.1 = -1.
Proof.
  intros ops z.
  split; [exact insertion_sort_permutes|]. split; [reflexivity|].
  apply (proj2 (proj2 (ZSet_GetRank_finds_members sample.insertion_sort
                         insertion_sort_permutes ops "user3"))).
  reflexivity.
Defined.

Lemma ZSet_GetRange_in_bounds_witness :
  let ops := [types.ZAdd "user1" 1%float; types.ZAdd "user2" 2%float] in
  let z := types.ZSet_run sample.insertion_sort ops in
  (forall less l, sample.insertion_sort less l ≡ₚ l) /\
  "user2" ∈ (types.ZSet_GetRange sample.insertion_sort 1.5%float 2%float z).1.
Proof.
  intros ops z.
  split; [exact insertion_sort_permutes|].
  apply (ZSet_GetRange_in_bounds sample.insertion_sort insertion_sort_permutes
           ops 1.5%float 2%float "user2").
  exists 2%float. repeat split.
Defined.

Lemma decoded_ZSet_has_no_ranks_witness :
  let z := {| types.ZSet_ZSet := {[ "a" := PrimFloat.zero ]};
              types.ZSet_TTL := 0; types.sortedScores := [] |} in
  (forall less l, sample.insertion_sort less l ≡ₚ l) /\
  vfs.ToZSet (H := sample.msgpack_zset) sample.zset_record = Ok z /\
  (types.ZSet_Get "a" z).2 = true /\
  (types.ZSet_GetRank sample.insertion_sort "a" z).1 = (-1, false).
Proof.
  intros z.
  assert (Hz : vfs.ToZSet (H := sample.msgpack_zset) sample.zset_record = Ok z)
    by reflexivity.
  split; [exact insertion_sort_permutes|]. split; [exact Hz|].
  split; [reflexivity|].
  exact (proj1 (decoded_ZSet_has_no_ranks sample.insertion_sort
                  insertion_sort_permutes (H := sample.msgpack_zset)
                  sample.zset_record z "a" PrimFloat.zero PrimFloat.zero Hz)).
Defined.

(** * Further properties of records *)

Section RecordFacts.
Context `{types.Msgpack}.
Variable transformer_Encode : bytes -> result bytes.

Lemma AcquirePoolSegment_result (pick : nat) (key : string)
    (data : vfs.Serializable) (ttl : Z) (w : vfs.World) :
  (vfs.AcquirePoolSegment transformer_Encode pick key data ttl w).1 =
  (vfs.NewSegment transformer_Encode key data ttl w).1 /\
  vfs.ticks (vfs.AcquirePoolSegment transformer_Encode pick key data ttl w).2 =
  vfs.ticks (vfs.NewSegment transformer_Encode key data ttl w).2.
Proof.
  unfold vfs.AcquirePoolSegment, vfs.NewSegment.
  destruct (pool_Get vfs.new_Segment pick (vfs.segmentPool w)) as [seg p].
  rewrite stamps_with_segmentPool.
  destruct (vfs.stamps ttl w) as [[ts ex] w'].
  destruct (vfs.Serializable_ToBytes data) as [bs|e]; [|split; reflexivity].
  destruct (transformer_Encode bs); split; reflexivity.
Qed.

(** X14. [AcquirePoolSegment] returns what [NewSegment] returns, record
    or error, whatever segment the pool hands out: nothing a pooled
    segment still holds, its stale kind included, reaches the record.
    Both read the clock the same number of times. *)
Theorem AcquirePoolSegment_agrees_with_NewSegment (pick : nat) (key : string)
    (data : vfs.Serializable) (ttl : Z) (w : vfs.World) :
  (vfs.AcquirePoolSegment transformer_Encode pick key data ttl w).1 =
  (vfs.NewSegment transformer_Encode key data ttl w).1 /\
  vfs.ticks (vfs.AcquirePoolSegment transformer_Encode pick key data ttl w).2 =
  vfs.ticks (vfs.NewSegment transformer_Encode key data ttl w).2.
Proof.
  unfold vfs.AcquirePoolSegment, vfs.NewSegment.
  destruct (pool_Get vfs.new_Segment pick (vfs.segmentPool w)) as [seg p].
  rewrite stamps_with_segmentPool.
  destruct (vfs.stamps ttl w) as [[ts ex] w'].
  destruct (vfs.Serializable_ToBytes data) as [bs|e]; [|split; reflexivity].
  destruct (transformer_Encode bs); split; reflexivity.
Qed.

(** X15. The key read back from a record is the key it was built for:
    [GetKeyString] of what [NewSegment], [AcquirePoolSegment] or
    [NewTombstoneSegment] returns is the key given, byte for byte. *)
Theorem GetKeyString_returns_the_key (pick : nat) (key : string)
    (data : vfs.Serializable) (ttl : Z) (w : vfs.World) (s : vfs.Segment) :
  (vfs.NewSegment transformer_Encode key data ttl w).1 = Ok s \/
  (vfs.AcquirePoolSegment transformer_Encode pick key data ttl w).1 = Ok s \/
  (vfs.NewTombstoneSegment key w).1 = s ->
  vfs.GetKeyString s = key.
Proof.
  rewrite (proj1 (AcquirePoolSegment_result pick key data ttl w)).
  unfold vfs.NewSegment, vfs.NewTombstoneSegment, vfs.GetKeyString.
  destruct (vfs.stamps ttl w) as [[ts ex] w'].
  assert (Hk : string_of_list_byte (bytes_of_string key) = key)
    by apply string_of_list_byte_of_string.
  intros [Hs | [Hs | Hs]].
  - destruct (vfs.Serializable_ToBytes data) as [bs|e]; [|discriminate].
    destruct (transformer_Encode bs); [|discriminate].
    cbn in Hs. injection Hs as <-. exact Hk.
  - destruct (vfs.Serializable_ToBytes data) as [bs|e]; [|discriminate].
    destruct (transformer_Encode bs); [|discriminate].
    cbn in Hs. injection Hs as <-. exact Hk.
  - cbn in Hs. subst s. exact Hk.
Qed.

(** X16. A record written with [ttl > 0] seconds and read [elapsed]
    nanoseconds later reports the whole seconds that remain,
    [floor ((ttl * 10^9 - elapsed) / 10^9)], which is [ttl] or
    [ttl - 1] within the first second, and [-1] once the ttl has
    elapsed; this as long as the clock stays in the non-negative
    [int64] and the expiry fits with it. *)
Theorem TTL_after_NewSegment (key : string) (data : vfs.Serializable)
    (ttl : Z) (w : vfs.World) (s : vfs.Segment) (w1 : vfs.World) (n : nat) :
  let written := vfs.clock w (1 + vfs.ticks w) in
  let read := vfs.clock w (n + (2 + vfs.ticks w)) in
  let elapsed := read - written in
  vfs.NewSegment transformer_Encode key data ttl w = (Ok s, w1) ->
  0 < ttl ->
  0 <= written <= read ->
  read < 2^63 ->
  written + ttl * 10^9 < 2^63 ->
  (elapsed < ttl * 10^9 ->
   (vfs.TTL s (after_ticks n w1)).1 = (ttl * 10^9 - elapsed) / 10^9 /\
   (elapsed < 10^9 -> ttl - 1 <= (vfs.TTL s (after_ticks n w1)).1 <= ttl)) /\
  (ttl * 10^9 <= elapsed -> (vfs.TTL s (after_ticks n w1)).1 = -1).
Proof.
  intros written read elapsed Hnew Httl Hclock Hread Hfit.
  unfold vfs.NewSegment in Hnew. rewrite stamps_eq in Hnew.
  destruct (Z.ltb_spec 0 ttl); [|lia].
  destruct (vfs.Serializable_ToBytes data) as [bs|e]; [|discriminate].
  destruct (transformer_Encode bs) as [enc|e]; [|discriminate].
  injection Hnew as <- <-.
  assert (Hw : wall_clock 1 w = written).
  { unfold wall_clock, time.UnixNano. fold written.
    rewrite int64_small by lia. apply uint64_small. lia. }
  unfold vfs.TTL, vfs.time_Now, after_ticks. cbn.
  change (vfs.clock w (n + S (S (vfs.ticks w)))) with read.
  unfold time.UnixNano.
  rewrite (int64_small read) by lia. rewrite (uint64_small read) by lia.
  rewrite Hw. rewrite (Z.mod_small (written + ttl * 10^9)) by lia.
  change (2 ^ 64) with 18446744073709551616 in *.
  change (2 ^ 63) with 9223372036854775808 in *.
  change (10 ^ 9) with 1000000000 in *.
  split.
  - intros Hel.
    destruct (Z.ltb_spec 0 (written + ttl * 1000000000)); [|lia].
    destruct (Z.ltb_spec read (written + ttl * 1000000000));
      [|unfold elapsed in Hel; lia].
    cbn [andb fst].
    rewrite uint64_small by (unfold uint64; lia).
    rewrite int64_small by lia.
    unfold time.Second. rewrite (int64_small 1000000000) by lia.
    rewrite Z.quot_div_nonneg by lia.
    replace (written + ttl * 1000000000 - read)
      with (ttl * 1000000000 - elapsed) by (unfold elapsed; lia).
    split; [reflexivity|].
    intros H1s.
    assert (Hel0 : 0 <= elapsed) by (unfold elapsed; lia).
    split.
    + apply Z.div_le_lower_bound; lia.
    + apply Z.div_le_upper_bound; lia.
  - intros Hel.
    destruct (Z.ltb_spec read (written + ttl * 1000000000));
      [unfold elapsed in Hel; lia|].
    now rewrite andb_false_r.
Qed.
End RecordFacts.

Lemma TTL_after_NewSegment_witness :
  let w := {| vfs.clock := fun n => 1700000000000000000 + 400000000 * Z.of_nat n;
              vfs.ticks := 0; vfs.segmentPool := [] |} in
  exists s w1,
    vfs.NewSegment (H := sample.msgpack) sample.identity_Encode
      "mock-key" (sample.text "v") 1 w = (Ok s, w1) /\
    (vfs.TTL s (after_ticks 0 w1)).1 = 0 /\
    (vfs.TTL s (after_ticks 2 w1)).1 = -1.
Proof.
  intros w. do 2 eexists. split; [reflexivity|].
  split.
  - pose proof (TTL_after_NewSegment (H := sample.msgpack)
                  sample.identity_Encode "mock-key" (sample.text "v") 1 w
                  _ _ 0 eq_refl) as Ht.
    cbv zeta in Ht.
    destruct Ht as [Ht _]; try (cbn; lia).
    destruct Ht as [-> _]; [cbn; lia|]. reflexivity.
  - pose proof (TTL_after_NewSegment (H := sample.msgpack)
                  sample.identity_Encode "mock-key" (sample.text "v") 1 w
                  _ _ 2 eq_refl) as Ht.
    cbv zeta in Ht.
    destruct Ht as [_ Ht]; try (cbn; lia).
    apply Ht. cbn. lia.
Defined.

Lemma GetKeyString_returns_the_key_witness :
  exists s,
    (vfs.NewSegment (H := sample.msgpack) sample.identity_Encode
       "mock-key" (sample.text "v") 0 sample.world).1 = Ok s /\
    vfs.GetKeyString s = "mock-key".
Proof.
  eexists. split; [reflexivity|].
  apply (GetKeyString_returns_the_key (H := sample.msgpack)
           sample.identity_Encode 0 "mock-key" (sample.text "v") 0
           sample.world).
  left. reflexivity.
Defined.

(** X17. [Size] is the header, the key, the value and the four bytes of
    the CRC, counted modulo [2^32]: the full length of the record as
    long as that stays below [2^32], and less than it beyond. *)
Theorem Size_is_record_length_mod (s : vfs.Segment) :
  vfs.Size s = (30 + vfs.KeySize s + vfs.ValueSize s) mod 2^32 /\
  (0 <= vfs.KeySize s -> 0 <= vfs.ValueSize s ->
   30 + vfs.KeySize s + vfs.ValueSize s < 2^32 ->
   vfs.Size s = 26 + vfs.KeySize s + vfs.ValueSize s + 4).
Proof.
  assert (Hm : vfs.Size s = (30 + vfs.KeySize s + vfs.ValueSize s) mod 2^32).
  { unfold vfs.Size, uint32, vfs.SEGMENT_PADDING.
    rewrite Zplus_mod_idemp_l.
    rewrite <- Z.add_assoc, Zplus_mod_idemp_l. f_equal. lia. }
  split; [exact Hm|].
  intros Hk Hv Hfit. rewrite Hm, Z.mod_small; lia.
Qed.

Lemma Size_is_record_length_mod_witness :
  let s := live_record "mock-key" (sample.text "")
             (bytes_of_string "123456789012345") 0 0 in
  0 <= vfs.KeySize s /\ 0 <= vfs.ValueSize s /\
  30 + vfs.KeySize s + vfs.ValueSize s < 2^32 /\
  vfs.Size s = 53.
Proof.
  intros s.
  assert (Hk : 0 <= vfs.KeySize s) by (vm_compute; discriminate).
  assert (Hv : 0 <= vfs.ValueSize s) by (vm_compute; discriminate).
  assert (Hf : 30 + vfs.KeySize s + vfs.ValueSize s < 2^32) by reflexivity.
  split; [exact Hk|]. split; [exact Hv|]. split; [exact Hf|].
  rewrite (proj2 (Size_is_record_length_mod s) Hk Hv Hf). reflexivity.
Defined.

Lemma KindToString_lookup (k : Z) :
  vfs.KindToString !! k =
  if decide (k = 0) then Some "set"
  else if decide (k = 1) then Some "zset"
  else if decide (k = 2) then Some "text"
  else if decide (k = 3) then Some "table"
  else if decide (k = 4) then Some "number"
  else if decide (k = 5) then Some "unknown"
  else if decide (k = 6) then Some "collection"
  else None.
Proof.
  unfold vfs.KindToString, vfs.Set_, vfs.ZSet, vfs.Text, vfs.Table,
    vfs.Number, vfs.Unknown, vfs.Collection.
  repeat (case_decide;
          [subst k; apply lookup_insert_eq
          | rewrite lookup_insert_ne by congruence]).
  apply lookup_empty.
Qed.

(** X18. [GetTypeString] names the seven kinds with seven different
    names and gives the empty string for every other kind value, which a
    record read from disk may carry. *)
Theorem GetTypeString_names_the_kinds (s1 s2 : vfs.Segment) :
  (vfs.GetTypeString s1 = "" <-> ~ 0 <= vfs.Type_ s1 <= 6) /\
  (0 <= vfs.Type_ s1 <= 6 ->
   vfs.GetTypeString s1 = vfs.GetTypeString s2 ->
   vfs.Type_ s1 = vfs.Type_ s2).
Proof.
  unfold vfs.GetTypeString. rewrite !KindToString_lookup. split.
  - repeat (case_decide; [cbn; split; [discriminate | lia]|]).
    cbn. split; [lia | reflexivity].
  - intros Hr.
    repeat (case_decide; [subst|]); cbn; try lia; try discriminate;
      repeat (case_decide; [congruence|]); cbn; try discriminate; lia.
Qed.

Lemma GetTypeString_names_the_kinds_witness :
  let s := vfs.set_Type vfs.Text vfs.new_Segment in
  0 <= vfs.Type_ s <= 6 /\
  vfs.GetTypeString s = "text" /\
  vfs.GetTypeString (vfs.set_Type 7 vfs.new_Segment) = "".
Proof.
  intros s. split; [unfold s; cbn; unfold vfs.Text; lia|].
  split; [reflexivity|].
  apply (proj1 (GetTypeString_names_the_kinds
                  (vfs.set_Type 7 vfs.new_Segment) s)).
  cbn. lia.
Defined.

Section ToJSONFacts.
Context `{types.Msgpack} `{types.Json}.

(** X19. [ToJSON] is the JSON of the msgpack-decoded value, by kind:
    on a record of one of the six payload kinds it fails only with the
    error of the decoder or of the JSON encoder, never with a
    kind-mismatch error; on a record of any other kind, a tombstone's
    [Unknown] included, it fails with "unknown data type". *)
Theorem ToJSON_by_kind (s : vfs.Segment) :
  let via {A} (decode : bytes -> result A) (encode : A -> result bytes) :=
    match decode (vfs.Value s) with
    | Ok v => encode v
    | Err e => Err e
    end in
  (vfs.Type_ s = vfs.Set_ ->
   vfs.ToJSON s = via types.Unmarshal_set types.json_set) /\
  (vfs.Type_ s = vfs.ZSet ->
   vfs.ToJSON s = via types.Unmarshal_zset types.json_zset) /\
  (vfs.Type_ s = vfs.Text ->
   vfs.ToJSON s = via types.Unmarshal_text types.json_text) /\
  (vfs.Type_ s = vfs.Table ->
   vfs.ToJSON s = via types.Unmarshal_table types.json_table) /\
  (vfs.Type_ s = vfs.Number ->
   vfs.ToJSON s = via types.Unmarshal_number types.json_number) /\
  (vfs.Type_ s = vfs.Collection ->
   vfs.ToJSON s = via types.Unmarshal_collection types.json_collection) /\
  (~ In (vfs.Type_ s)
       [vfs.Set_; vfs.ZSet; vfs.Text; vfs.Table; vfs.Number; vfs.Collection] ->
   vfs.ToJSON s = Err "unknown data type").
Proof.
  intros via. subst via.
  unfold vfs.ToJSON, vfs.ToSet, vfs.ToZSet, vfs.ToText, vfs.ToTable,
    vfs.ToNumber, vfs.ToCollection.
  repeat split.
  1-6: intros ->; cbn;
    match goal with |- context [?d (vfs.Value ?r)] =>
      destruct (d (vfs.Value r)); reflexivity end.
  intros Hn. cbn in Hn.
  repeat match goal with
         | |- context [?a =? ?b] =>
             destruct (Z.eqb_spec a b);
             [exfalso; apply Hn; intuition congruence|]
         end.
  reflexivity.
Qed.
End ToJSONFacts.

Lemma ToJSON_by_kind_witness :
  let s := live_record "hello" (sample.text "world")
             (byte_of_Z 165 :: bytes_of_string "world") 0 0 in
  let tomb := (vfs.NewTombstoneSegment "hello" sample.world).1 in
  vfs.Type_ s = vfs.Text /\
  vfs.ToJSON (H := sample.msgpack) (H0 := sample.json) s
    = Ok (bytes_of_string (String.append sample.quote
                             (String.append "world" sample.quote))) /\
  vfs.ToJSON (H := sample.msgpack) (H0 := sample.json) tomb
    = Err "unknown data type".
Proof.
  intros s tomb.
  pose proof (ToJSON_by_kind (H := sample.msgpack) (H0 := sample.json) s)
    as (_ & _ & Htext & _).
  pose proof (ToJSON_by_kind (H := sample.msgpack) (H0 := sample.json) tomb)
    as (_ & _ & _ & _ & _ & _ & Hunknown).
  assert (Hk : vfs.Type_ s = vfs.Text) by reflexivity.
  split; [exact Hk|]. split.
  - rewrite (Htext Hk). reflexivity.
  - apply Hunknown. cbn. unfold vfs.Unknown, vfs.Set_, vfs.ZSet, vfs.Text,
      vfs.Table, vfs.Number, vfs.Collection. lia.
Defined.

(** ** The segment pool across calls *)

Section SegmentPoolFacts.
Context `{types.Msgpack}.
Variable transformer_Encode : bytes -> result bytes.

Lemma Clear_carries_no_record s : carries_no_record (vfs.Clear s).
Proof. repeat split. Qed.

Lemma stamps_segmentPool ttl w :
  vfs.segmentPool (vfs.stamps ttl w).2 = vfs.segmentPool w.
Proof.
  unfold vfs.stamps, vfs.time_Now. cbn. destruct (0 <? ttl); reflexivity.
Qed.

Lemma run_call_carries_no_record w c :
  Forall carries_no_record (vfs.segmentPool w) ->
  Forall carries_no_record
    (vfs.segmentPool (vfs.run_call transformer_Encode w c)).
Proof.
  intros Hw. destruct c as [key data ttl | pick key data ttl | seg | key | seg];
    cbn.
  - unfold vfs.NewSegment.
    pose proof (stamps_segmentPool ttl w) as Hp.
    destruct (vfs.stamps ttl w) as [[ts ex] w']. cbn in Hp.
    destruct (vfs.Serializable_ToBytes data) as [bs|e];
      [destruct (transformer_Encode bs)|]; cbn; now rewrite Hp.
  - unfold vfs.AcquirePoolSegment.
    destruct (pool_Get_Forall carries_no_record vfs.new_Segment pick
                (vfs.segmentPool w)) as [Hseg Hp]; [repeat split | exact Hw |].
    destruct (pool_Get vfs.new_Segment pick (vfs.segmentPool w)) as [seg p].
    cbn in Hseg, Hp.
    pose proof (stamps_segmentPool ttl (vfs.with_segmentPool p w)) as Hs.
    destruct (vfs.stamps ttl (vfs.with_segmentPool p w)) as [[ts ex] w'].
    cbn in Hs.
    destruct (vfs.Serializable_ToBytes data) as [bs|e];
      [destruct (transformer_Encode bs)|]; cbn; rewrite ?Hs; try exact Hp;
      (constructor; [apply Clear_carries_no_record | exact Hp]).
  - constructor; [apply Clear_carries_no_record | exact Hw].
  - exact Hw.
  - unfold vfs.TTL, vfs.time_Now.
    destruct ((0 <? vfs.ExpiredAt seg) && _); exact Hw.
Qed.

(** X20. After [init] and any sequence of calls, every segment in the
    pool carries no key, no value, no size, no time stamp and no
    tombstone mark of the record it was used for: only the kind may be
    left over. *)
Theorem segmentPool_carries_no_record (clock0 : nat -> time.Time)
    (cs : list vfs.call) :
  Forall carries_no_record
    (vfs.segmentPool (vfs.run_calls transformer_Encode clock0 cs)).
Proof.
  unfold vfs.run_calls.
  assert (H0 : Forall carries_no_record
                 (vfs.segmentPool
                    (vfs.init {| vfs.clock := clock0; vfs.ticks := 0;
                                 vfs.segmentPool := [] |}))).
  { unfold vfs.init. cbn [vfs.segmentPool vfs.with_segmentPool].
    apply pool_fill_Forall; [repeat split | constructor]. }
  revert H0. generalize (vfs.init {| vfs.clock := clock0; vfs.ticks := 0;
                                     vfs.segmentPool := [] |}).
  induction cs as [|c cs IH]; intros w Hw; cbn; [exact Hw|].
  apply IH. now apply run_call_carries_no_record.
Qed.
End SegmentPoolFacts.

(** * Further properties of configuration and server *)

(** X21. [Vaildated] reports the first failure in the order port, path,
    password, encryptor: a bad port hides every other defect, an empty
    path hides an empty password and a bad secret, and so on. *)
Theorem Vaildated_reports_first_failure (opt : conf.ServerOptions) :
  let port_ok := 1025 <= conf.Port opt <= 65534 in
  (~ port_ok ->
   conf.Vaildated opt = Some "port range must be between 1025 and 65534") /\
  (port_ok -> conf.Path opt = "" ->
   conf.Vaildated opt = Some "data directory path cannot be empty") /\
  (port_ok -> conf.Path opt <> "" -> conf.Password opt = "" ->
   conf.Vaildated opt = Some "auth password cannot be empty") /\
  (port_ok -> conf.Path opt <> "" -> conf.Password opt <> "" ->
   conf.validateEncryptor (conf.encryptor opt) <> None ->
   conf.Vaildated opt =
     Some "invalid secret key length it must be 16, 24, or 32 bytes").
Proof.
  intros port_ok. unfold conf.Vaildated. cbn.
  pose proof (validatePort_nil (conf.Port opt)) as Hp.
  pose proof (validatePath_nil (conf.Path opt)) as Hd.
  pose proof (validatePassword_nil (conf.Password opt)) as Ha.
  fold port_ok in Hp.
  split; [|split; [|split]].
  - intros Hbad. unfold conf.validatePort in *.
    destruct ((conf.Port opt <=? 1024) || (conf.Port opt >=? 65535));
      [reflexivity|]. exfalso. apply Hbad, Hp. reflexivity.
  - intros Hok Hempty. rewrite (proj2 Hp Hok).
    unfold conf.validatePath. rewrite Hempty. reflexivity.
  - intros Hok Hpath Hempty. rewrite (proj2 Hp Hok), (proj2 Hd Hpath).
    unfold conf.validatePassword. rewrite Hempty. reflexivity.
  - intros Hok Hpath Hpw Henc.
    rewrite (proj2 Hp Hok), (proj2 Hd Hpath), (proj2 Ha Hpw).
    unfold conf.validateEncryptor in *.
    destruct (negb (conf.Encryptor_Enable (conf.encryptor opt)));
      [contradiction|].
    destruct (conf.valid_at _); [contradiction | reflexivity].
Qed.

Lemma Vaildated_reports_first_failure_witness :
  let opt := {| conf.Port := 70000; conf.Path := ""; conf.Debug := false;
                conf.LogPath := ""; conf.Password := "";
                conf.region := conf.region conf.Default;
                conf.encryptor := {| conf.Encryptor_Enable := true;
                                     conf.Secret := "short" |};
                conf.compressor := conf.compressor conf.Default;
                conf.checkpoint := conf.checkpoint conf.Default;
                conf.AllowIP := [] |} in
  ~ 1025 <= conf.Port opt <= 65534 /\
  conf.Vaildated opt = Some "port range must be between 1025 and 65534".
Proof.
  intros opt.
  assert (Hbad : ~ 1025 <= conf.Port opt <= 65534) by (cbn; lia).
  split; [exact Hbad|].
  exact (proj1 (Vaildated_reports_first_failure opt) Hbad).
Defined.

(** X22. [New] builds a server exactly for the ports from 1024 to
    65536: it then keeps the port, listens on the local address joined
    with the port in decimal, and replaces the auth password only by a
    non-empty one; for any other port it fails with "HTTP server port
    illegal" and changes nothing. *)
Theorem New_accepts_ports_1024_to_65536 (opt : server.Options)
    (g : server.Globals) :
  (1024 <= server.Port opt <= 65536 ->
   exists hs g',
     server.New opt g = (Ok hs, g') /\
     server.HttpServer_Port hs = server.Port opt /\
     server.Addr (server.serv hs) =
       server.net_JoinHostPort (server.ipv4 g)
         (server.strconv_Itoa (server.Port opt)) /\
     server.ipv4 g' = server.ipv4 g /\
     server.authPassword g' =
       (if String.eqb (server.Auth opt) "" then server.authPassword g
        else server.Auth opt)) /\
  (server.Port opt < 1024 \/ 65536 < server.Port opt ->
   server.New opt g = (Err "HTTP server port illegal", g)).
Proof.
  unfold server.New, server.minPort, server.maxPort.
  change (Z.shiftl 1 16) with 65536.
  destruct (Z.ltb_spec (server.Port opt) 1024);
    destruct (Z.gtb_spec (server.Port opt) 65536); cbn [orb];
    (split; [intros Hr; try lia | intros Hr; try lia; try reflexivity]).
  do 2 eexists. split; [reflexivity|]. cbn.
  destruct (String.eqb (server.Auth opt) ""); cbn; repeat split.
Qed.

Lemma New_accepts_ports_1024_to_65536_witness :
  exists hs g',
    1024 <= 8080 <= 65536 /\
    server.New {| server.Port := 8080; server.Auth := "secret" |}
      sample.globals = (Ok hs, g') /\
    server.Addr (server.serv hs) = "127.0.0.1:8080" /\
    server.authPassword g' = "secret" /\
    server.New {| server.Port := 80; server.Auth := "" |} sample.globals
      = (Err "HTTP server port illegal", sample.globals).
Proof.
  pose proof (New_accepts_ports_1024_to_65536
                {| server.Port := 8080; server.Auth := "secret" |}
                sample.globals) as [Hok _].
  pose proof (New_accepts_ports_1024_to_65536
                {| server.Port := 80; server.Auth := "" |}
                sample.globals) as [_ Hbad].
  assert (Hr : 1024 <= 8080 <= 65536) by lia.
  destruct (Hok Hr) as (hs & g' & Hnew & _ & Haddr & _ & Hauth).
  exists hs, g'. split; [exact Hr|]. split; [exact Hnew|].
  split; [rewrite Haddr; reflexivity|]. split; [rewrite Hauth; reflexivity|].
  apply Hbad. left. cbn. lia.
Defined.

(** X23. A configuration that passes [Vaildated] never fails the port
    check of [New], and its password, being non-empty, becomes the auth
    password of the server. *)
Theorem validated_configuration_builds_a_server (copt : conf.ServerOptions)
    (g : server.Globals) :
  conf.Vaildated copt = None ->
  exists hs g',
    server.New {| server.Port := conf.Port copt;
                  server.Auth := conf.Password copt |} g = (Ok hs, g') /\
    server.HttpServer_Port hs = conf.Port copt /\
    server.authPassword g' = conf.Password copt.
Proof.
  intros Hv.
  unfold conf.Vaildated in Hv. cbn in Hv.
  destruct (conf.validatePort (conf.Port copt)) eqn:Hp; [discriminate|].
  destruct (conf.validatePath (conf.Path copt)); [discriminate|].
  destruct (conf.validatePassword (conf.Password copt)) eqn:Ha; [discriminate|].
  apply validatePort_nil in Hp. apply validatePassword_nil in Ha.
  unfold server.New, server.minPort, server.maxPort. cbn.
  change (Z.shiftl 1 16) with 65536.
  destruct (Z.ltb_spec (conf.Port copt) 1024); [lia|].
  destruct (Z.gtb_spec (conf.Port copt) 65536); [lia|]. cbn.
  destruct (String.eqb_spec (conf.Password copt) ""); [contradiction|].
  do 2 eexists. repeat split.
Qed.

Lemma validated_configuration_builds_a_server_witness :
  conf.Vaildated conf.Default = None /\
  exists hs g',
    server.New {| server.Port := 2668;
                  server.Auth := "Are we wide open to the world?" |}
      sample.globals = (Ok hs, g') /\
    server.HttpServer_Port hs = 2668 /\
    server.authPassword g' = "Are we wide open to the world?".
Proof.
  assert (Hv : conf.Vaildated conf.Default = None) by reflexivity.
  split; [exact Hv|].
  exact (validated_configuration_builds_a_server conf.Default sample.globals Hv).
Defined.

(** * Further properties of [Table] and of the payload pools *)

(** X2. On a [Table] built from [NewTable] by [AddItem] and
    [RemoveItem]: an item added under a key is the item [GetItem]
    returns for it, other keys keep their items, a removed key is no
    longer contained and reads as nil, and [Size] grows or shrinks by
    one exactly when the key was new or present. *)
Theorem Table_items_after_AddItem_RemoveItem (ops : list types.Table_op)
    (key other : string) (value : types.any) :
  let t := types.Table_run ops in
  types.Table_GetItem key (types.Table_AddItem key value t) = value /\
  types.Table_ContainsKey key (types.Table_AddItem key value t) = true /\
  (other <> key ->
   types.Table_GetItem other (types.Table_AddItem key value t)
     = types.Table_GetItem other t /\
   types.Table_GetItem other (types.Table_RemoveItem key t)
     = types.Table_GetItem other t) /\
  types.Table_ContainsKey key (types.Table_RemoveItem key t) = false /\
  types.Table_GetItem key (types.Table_RemoveItem key t) = types.AnyNil /\
  types.Table_Size (types.Table_AddItem key value t) =
    types.Table_Size t + (if types.Table_ContainsKey key t then 0 else 1) /\
  types.Table_Size (types.Table_RemoveItem key t) =
    types.Table_Size t - (if types.Table_ContainsKey key t then 1 else 0).
Proof.
  intros t.
  unfold types.Table_GetItem, types.Table_ContainsKey, types.Table_AddItem,
    types.Table_RemoveItem, types.Table_Size.
  cbn [types.Table_Table].
  rewrite lookup_insert_eq, lookup_delete_eq.
  split; [reflexivity|]. split; [reflexivity|]. split.
  - intros Hne.
    rewrite lookup_insert_ne, lookup_delete_ne by congruence.
    split; reflexivity.
  - split; [reflexivity|]. split; [reflexivity|].
    destruct (types.Table_Table t !! key) as [old|] eqn:Hk; split.
    + rewrite map_size_insert_Some by eauto. lia.
    + rewrite map_size_delete_Some by eauto.
      assert (size (types.Table_Table t) <> 0%nat); [|lia].
      intros Hz. apply map_size_empty_iff in Hz. rewrite Hz in Hk.
      now rewrite lookup_empty in Hk.
    + rewrite map_size_insert_None by exact Hk. lia.
    + rewrite map_size_delete_None by exact Hk. lia.
Qed.

Lemma Table_items_after_AddItem_RemoveItem_witness :
  let t := types.Table_run [types.TAdd "key1" (types.AnyString "value1")] in
  "nonExistentKey" <> "key1" /\
  types.Table_GetItem "key1" t = types.AnyString "value1" /\
  types.Table_GetItem "nonExistentKey"
    (types.Table_AddItem "key1" (types.AnyInt 42) t) = types.AnyNil.
Proof.
  intros t.
  assert (Hne : "nonExistentKey" <> "key1") by discriminate.
  split; [exact Hne|]. split; [reflexivity|].
  destruct (Table_items_after_AddItem_RemoveItem
              [types.TAdd "key1" (types.AnyString "value1")]
              "key1" "nonExistentKey" (types.AnyInt 42))
    as (_ & _ & Hother & _).
  etransitivity; [exact (proj1 (Hother Hne)) | reflexivity].
Defined.

(** X24. After package initialisation and any sequence of [Acquire] and
    [ReleaseToPool] calls with any objects, [AcquireCollection],
    [AcquireNumber], [AcquireSet], [AcquireTable] and [AcquireText]
    return a value equal to a newly constructed one and never panic;
    [AcquireZSet] returns a new [ZSet] or panics on the type
    assertion. *)
Theorem payload_pools_return_new_values (cs : list types.call) (pick : nat) :
  let ps := types.run_calls cs in
  (types.AcquireCollection pick ps).1 = Returned types.NewCollection /\
  (types.AcquireNumber pick ps).1 = Returned (types.NewNumber 0) /\
  (types.AcquireSet pick ps).1 = Returned types.NewSet /\
  (types.AcquireTable pick ps).1 = Returned types.NewTable /\
  (types.AcquireText pick ps).1 = Returned (types.NewText "") /\
  ((types.AcquireZSet pick ps).1 = Returned types.NewZSet \/
   (types.AcquireZSet pick ps).1 =
     Panicked "interface conversion: interface {} is not *types.ZSet").
Proof.
  intros ps.
  destruct (run_calls_hold_new_values cs) as (Hc & Hn & Hs & Htb & Htx & Hz).
  fold ps in Hc, Hn, Hs, Htb, Htx, Hz.
  unfold types.AcquireCollection, types.AcquireNumber, types.AcquireSet,
    types.AcquireTable, types.AcquireText, types.AcquireZSet.
  repeat split.
  - pose proof (proj1 (pool_Get_Forall _ _ pick _ eq_refl Hc)) as Hg.
    destruct (pool_Get _ pick (types.collectionPools ps)) as [o p].
    cbn in *. now subst o.
  - pose proof (proj1 (pool_Get_Forall _ _ pick _ eq_refl Hn)) as Hg.
    destruct (pool_Get _ pick (types.numberPools ps)) as [o p].
    cbn in *. now subst o.
  - pose proof (proj1 (pool_Get_Forall _ _ pick _ eq_refl Hs)) as Hg.
    destruct (pool_Get _ pick (types.setPools ps)) as [o p].
    cbn in *. now subst o.
  - pose proof (proj1 (pool_Get_Forall _ _ pick _ eq_refl Htb)) as Hg.
    destruct (pool_Get _ pick (types.tablePools ps)) as [o p].
    cbn in *. now subst o.
  - pose proof (proj1 (pool_Get_Forall _ _ pick _ eq_refl Htx)) as Hg.
    destruct (pool_Get _ pick (types.textPools ps)) as [o p].
    cbn in *. now subst o.
  - pose proof (proj1 (pool_Get_Forall _ _ pick _ (or_introl eq_refl) Hz)) as Hg.
    destruct (pool_Get _ pick (types.zsetPools ps)) as [o p].
    cbn in *. destruct Hg as [-> | ->]; [left | right]; reflexivity.
Qed.

(** Two slices cannot be compared: [Remove] of a slice from a collection
    that holds one panics. *)
Example Collection_Remove_panics :
  types.Collection_Remove sample.interface_eq (types.AnySlice [])
    (types.Collection_AddItem (types.AnySlice [types.AnyInt 1])
       types.NewCollection)
  = Panicked "runtime error: comparing uncomparable type []interface {}".
Proof. reflexivity. Qed.
